(** * Arunika Doll M2 firmware: a shallow embedding of the C sources

    The development follows the translation units of [doll-m2/src]:
    [arunika.h] (types and error codes), [utils.c] (Base64, clock),
    [config.c], [audio.c], [network.c], [websocket.c], [power.c],
    [device.c] (the device state machine) and [main.c] (boot and the
    polling loop).

    The file-scope [static] variables of all translation units are gathered
    in one record, [statics]; every C function that reads or writes them is a
    computation in a small state monad over [world], which also carries the
    monotonic clock and the list of externally visible actions (state
    transitions printed by [device_set_state], calls to the transport,
    sleeps). *)

From Stdlib Require Import ZArith Lia Bool.
From Stdlib.Strings Require Import Ascii String Byte.
From stdpp Require Import base list.

Local Open Scope Z_scope.

(** ** C integer types *)

Module CInt.

(** [uint32_t] and, on the ESP32 target, [size_t]: arithmetic modulo 2^32. *)
Definition UINT32_MOD : Z := 2 ^ 32.
Definition wrap_u32 (z : Z) : Z := z mod UINT32_MOD.

Definition wrap_u8 (z : Z) : Z := z mod 256.

(** [int] is 32 bits wide.  Conversion of an out-of-range value to [int], and
    the result of [sequence++] at [INT_MAX], is what the two's-complement
    targets of the firmware give: the value modulo 2^32 read as signed. *)
Definition INT_MAX : Z := 2 ^ 31 - 1.
Definition INT_MIN : Z := - 2 ^ 31.
Definition wrap_int (z : Z) : Z := (z + 2 ^ 31) mod 2 ^ 32 - 2 ^ 31.

End CInt.
Import CInt.

(** ** arunika.h *)

Definition SAMPLE_RATE : Z := 8000.
Definition AUDIO_BUFFER_SIZE : Z := 1024.

Definition MAX_SSID_LENGTH : nat := 32.
Definition MAX_PASSWORD_LENGTH : nat := 64.
Definition MAX_URL_LENGTH : nat := 256.
Definition MAX_DEVICE_ID_LENGTH : nat := 32.

Definition MSG_TYPE_AUDIO_CHUNK : string := "audio_chunk".
Definition MSG_TYPE_PING : string := "ping".
Definition MSG_TYPE_PONG : string := "pong".
Definition MSG_TYPE_AI_RESPONSE : string := "ai_response".

Inductive device_state_t : Set :=
| DEVICE_STATE_INIT
| DEVICE_STATE_CONNECTING
| DEVICE_STATE_CONNECTED
| DEVICE_STATE_RECORDING
| DEVICE_STATE_PROCESSING
| DEVICE_STATE_PLAYING
| DEVICE_STATE_IDLE
| DEVICE_STATE_ERROR.

Definition device_state_eqb (a b : device_state_t) : bool :=
  match a, b with
  | DEVICE_STATE_INIT, DEVICE_STATE_INIT
  | DEVICE_STATE_CONNECTING, DEVICE_STATE_CONNECTING
  | DEVICE_STATE_CONNECTED, DEVICE_STATE_CONNECTED
  | DEVICE_STATE_RECORDING, DEVICE_STATE_RECORDING
  | DEVICE_STATE_PROCESSING, DEVICE_STATE_PROCESSING
  | DEVICE_STATE_PLAYING, DEVICE_STATE_PLAYING
  | DEVICE_STATE_IDLE, DEVICE_STATE_IDLE
  | DEVICE_STATE_ERROR, DEVICE_STATE_ERROR => true
  | _, _ => false
  end.

#[global] Instance device_state_eq_dec : EqDecision device_state_t.
Proof. solve_decision. Defined.

Inductive audio_format_t : Set :=
| AUDIO_FORMAT_PCM
| AUDIO_FORMAT_MULAW
| AUDIO_FORMAT_ALAW.

(** [char] arrays are kept whole, as the list of their bytes: [memcpy] moves
    all of them, also those after the terminating NUL.  It also moves the two
    bytes the compiler leaves between [server_port] (offset 384) and
    [audio_format] (an [int], offset 388), which [port_padding] holds. *)
Definition NUL : ascii := "000"%char.

Record device_config_t : Set := mk_device_config {
  wifi_ssid : list ascii;
  wifi_password : list ascii;
  server_url : list ascii;
  device_id : list ascii;
  server_port : Z;
  port_padding : list ascii;
  audio_format : audio_format_t
}.

Record audio_buffer_t : Set := mk_audio_buffer {
  data : list byte;
  size : Z;
  capacity : Z;
  sample_rate : Z;
  format : audio_format_t
}.

(** [arunika_error_t]; the functions return it as [int]. *)
Definition ARUNIKA_OK : Z := 0.
Definition ARUNIKA_ERROR_INIT : Z := -1.
Definition ARUNIKA_ERROR_CONFIG : Z := -2.
Definition ARUNIKA_ERROR_NETWORK : Z := -3.
Definition ARUNIKA_ERROR_AUDIO : Z := -4.
Definition ARUNIKA_ERROR_WEBSOCKET : Z := -5.
Definition ARUNIKA_ERROR_MEMORY : Z := -6.
Definition ARUNIKA_ERROR_TIMEOUT : Z := -7.
Definition ARUNIKA_ERROR_INVALID_PARAM : Z := -8.

(** ** C strings *)

(** The string a [char *] denotes: the bytes from the address it holds up to
    the first NUL.  The argument is the memory from that address on; for an
    array that holds a NUL it is enough to give the array, for one that may
    hold none the bytes that follow it in memory have to be given too, since
    the read goes on into them. *)
Fixpoint c_str (a : list ascii) : string :=
  match a with
  | [] => EmptyString
  | c :: rest => if Ascii.eqb c NUL then EmptyString else String c (c_str rest)
  end.

(** A [char\[n\]] initialised from a string literal: the literal, then NULs. *)
Definition char_array (n : nat) (s : string) : list ascii :=
  take n (list_ascii_of_string s ++ replicate n NUL).

(** The object representation of the members that follow the [char] arrays of
    a [device_config_t], on the little-endian targets of the firmware. *)
Definition byte_of (v : Z) : ascii := ascii_of_N (Z.to_N (v mod 256)).

Definition uint16_bytes (v : Z) : list ascii := [byte_of v; byte_of (v / 256)].

Definition audio_format_bytes (f : audio_format_t) : list ascii :=
  [ match f with
    | AUDIO_FORMAT_PCM => byte_of 0
    | AUDIO_FORMAT_MULAW => byte_of 1
    | AUDIO_FORMAT_ALAW => byte_of 2
    end; NUL; NUL; NUL ].

(** The memory of a [device_config_t] from each of its [char] arrays on: what
    a read through [config.wifi_ssid], [config.wifi_password],
    [config.server_url] or [config.device_id] walks over until it meets a
    NUL.  It meets one in [audio_format] at the latest. *)
Definition from_device_id (config : device_config_t) : list ascii :=
  device_id config ++ uint16_bytes (server_port config) ++ port_padding config
  ++ audio_format_bytes (audio_format config).
Definition from_server_url (config : device_config_t) : list ascii :=
  server_url config ++ from_device_id config.
Definition from_wifi_password (config : device_config_t) : list ascii :=
  wifi_password config ++ from_server_url config.
Definition from_wifi_ssid (config : device_config_t) : list ascii :=
  wifi_ssid config ++ from_wifi_password config.

(** The values that are a [device_config_t] of [arunika.h]: every array has
    its declared size and the port is a [uint16_t]. *)
Definition laid_out (config : device_config_t) : bool :=
  (length (wifi_ssid config) =? MAX_SSID_LENGTH)%nat
  && (length (wifi_password config) =? MAX_PASSWORD_LENGTH)%nat
  && (length (server_url config) =? MAX_URL_LENGTH)%nat
  && (length (device_id config) =? MAX_DEVICE_ID_LENGTH)%nat
  && (0 <=? server_port config) && (server_port config <? 65536)
  && (length (port_padding config) =? 2)%nat.

(** [strstr]: the suffix of [haystack] that starts at the first occurrence of
    [needle], [None] for the null pointer. *)
Fixpoint strstr (haystack needle : string) : option string :=
  if String.prefix needle haystack then Some haystack
  else match haystack with
       | EmptyString => None
       | String _ rest => strstr rest needle
       end.

(** ** The program state *)

(** Every file-scope and function-scope [static] of the firmware. *)
Record statics : Set := mk_statics {
  current_state : device_state_t;       (* device.c *)
  default_config : device_config_t;     (* config.c *)
  audio_initialized : bool;             (* audio.c *)
  is_recording : bool;                  (* audio.c *)
  network_initialized : bool;           (* network.c *)
  wifi_connected : bool;                (* network.c *)
  websocket_connected : bool;           (* websocket.c *)
  power_initialized : bool;             (* power.c *)
  battery_level : Z;                    (* power.c, uint8_t *)
  last_check : Z;                       (* power.c, in power_get_battery_level *)
  sequence : Z                          (* main.c, in the recording branch *)
}.

Definition set_current_state (v : device_state_t) (g : statics) : statics :=
  mk_statics v (default_config g) (audio_initialized g) (is_recording g)
    (network_initialized g) (wifi_connected g) (websocket_connected g)
    (power_initialized g) (battery_level g) (last_check g) (sequence g).
Definition set_default_config (v : device_config_t) (g : statics) : statics :=
  mk_statics (current_state g) v (audio_initialized g) (is_recording g)
    (network_initialized g) (wifi_connected g) (websocket_connected g)
    (power_initialized g) (battery_level g) (last_check g) (sequence g).
Definition set_audio_initialized (v : bool) (g : statics) : statics :=
  mk_statics (current_state g) (default_config g) v (is_recording g)
    (network_initialized g) (wifi_connected g) (websocket_connected g)
    (power_initialized g) (battery_level g) (last_check g) (sequence g).
Definition set_is_recording (v : bool) (g : statics) : statics :=
  mk_statics (current_state g) (default_config g) (audio_initialized g) v
    (network_initialized g) (wifi_connected g) (websocket_connected g)
    (power_initialized g) (battery_level g) (last_check g) (sequence g).
Definition set_network_initialized (v : bool) (g : statics) : statics :=
  mk_statics (current_state g) (default_config g) (audio_initialized g)
    (is_recording g) v (wifi_connected g) (websocket_connected g)
    (power_initialized g) (battery_level g) (last_check g) (sequence g).
Definition set_wifi_connected (v : bool) (g : statics) : statics :=
  mk_statics (current_state g) (default_config g) (audio_initialized g)
    (is_recording g) (network_initialized g) v (websocket_connected g)
    (power_initialized g) (battery_level g) (last_check g) (sequence g).
Definition set_websocket_connected (v : bool) (g : statics) : statics :=
  mk_statics (current_state g) (default_config g) (audio_initialized g)
    (is_recording g) (network_initialized g) (wifi_connected g) v
    (power_initialized g) (battery_level g) (last_check g) (sequence g).
Definition set_power_initialized (v : bool) (g : statics) : statics :=
  mk_statics (current_state g) (default_config g) (audio_initialized g)
    (is_recording g) (network_initialized g) (wifi_connected g)
    (websocket_connected g) v (battery_level g) (last_check g) (sequence g).
Definition set_battery_level (v : Z) (g : statics) : statics :=
  mk_statics (current_state g) (default_config g) (audio_initialized g)
    (is_recording g) (network_initialized g) (wifi_connected g)
    (websocket_connected g) (power_initialized g) v (last_check g) (sequence g).
Definition set_last_check (v : Z) (g : statics) : statics :=
  mk_statics (current_state g) (default_config g) (audio_initialized g)
    (is_recording g) (network_initialized g) (wifi_connected g)
    (websocket_connected g) (power_initialized g) (battery_level g) v (sequence g).
Definition set_sequence (v : Z) (g : statics) : statics :=
  mk_statics (current_state g) (default_config g) (audio_initialized g)
    (is_recording g) (network_initialized g) (wifi_connected g)
    (websocket_connected g) (power_initialized g) (battery_level g)
    (last_check g) v.

(** What the device is seen to do, in the order it does it. *)
Inductive action : Set :=
| StateTransition (from to : device_state_t)  (* printed by device_set_state *)
| Sleep (ms : Z)                              (* delay_ms *)
| CaptureStart                                (* audio_start_recording went through *)
| CaptureStop                                 (* audio_stop_recording went through *)
| PlayBuffer (bytes : Z)                      (* audio_play_buffer went through *)
| WifiConnect (ssid : string)
| WebsocketConnect (url : string) (port : Z) (path : string)
| SendAudioChunk (seq_no : Z) (result : Z)    (* a call of websocket_send_audio_chunk *)
| SendPing.

Record world : Set := mk_world {
  globals : statics;
  monotonic_ms : Z;        (* CLOCK_MONOTONIC, in milliseconds *)
  trace : list action
}.

(** ** The state monad of the firmware's functions *)

Definition M (A : Type) : Type := world -> A * world.

Definition ret {A} (a : A) : M A := fun w => (a, w).
Definition bind {A B} (m : M A) (k : A -> M B) : M B :=
  fun w => let (a, w') := m w in k a w'.

Declare Scope firmware_scope.
Notation "x <- m ; k" := (bind m (fun x => k))
  (at level 20, m at level 100, k at level 200, only parsing)
  : firmware_scope.
Notation "' pat <- m ; k" := (bind m (fun x => match x with pat => k end))
  (at level 20, pat pattern, m at level 100, k at level 200, only parsing)
  : firmware_scope.
Notation "m ;; k" := (bind m (fun _ => k))
  (at level 100, k at level 200, only parsing, right associativity)
  : firmware_scope.
Local Open Scope firmware_scope.

Definition read {A} (field : statics -> A) : M A :=
  fun w => (field (globals w), w).
Definition write (update : statics -> statics) : M unit :=
  fun w => (tt, mk_world (update (globals w)) (monotonic_ms w) (trace w)).
Definition emit (a : action) : M unit :=
  fun w => (tt, mk_world (globals w) (monotonic_ms w) (trace w ++ [a])).

(** The result and the final world of a computation. *)
Definition result {A} (m : M A) (w : world) : A := fst (m w).
Definition after {A} (m : M A) (w : world) : world := snd (m w).

(** ** utils.c *)

Definition base64_table : string :=
  "ABCDEFGHIJKLMNOPQRSTUVWXYZabcdefghijklmnopqrstuvwxyz0123456789+/".

(** [base64_table\[index\]]. *)
Definition table_at (index : Z) : ascii :=
  default NUL (list_ascii_of_string base64_table !! Z.to_nat index).

(** [input\[i\]] widened to [uint32_t]. *)
Definition octet (input : list byte) (i : nat) : Z :=
  match input !! i with
  | Some b => Z.of_N (Byte.to_N b)
  | None => 0
  end.

(** [i < input_len ? input\[i++\] : 0]: the value and the new [i]. *)
Definition next_octet (input : list byte) (input_len i : nat) : Z * nat :=
  if (i <? input_len)%nat then (octet input i, S i) else (0, i).

(** The first [for] loop of [base64_encode], one unfolding per iteration;
    [output] is the caller's buffer, written by index. *)
Fixpoint encode_loop (fuel : nat) (input : list byte) (input_len i j : nat)
    (output : list ascii) : list ascii :=
  match fuel with
  | O => output
  | S fuel' =>
      if (i <? input_len)%nat then
        let '(octet_a, i) := next_octet input input_len i in
        let '(octet_b, i) := next_octet input input_len i in
        let '(octet_c, i) := next_octet input input_len i in
        let triple :=
          wrap_u32 (Z.shiftl octet_a 16 + Z.shiftl octet_b 8 + octet_c) in
        let output := <[j := table_at (Z.land (Z.shiftr triple (3 * 6)) 63)]> output in
        let output := <[S j := table_at (Z.land (Z.shiftr triple (2 * 6)) 63)]> output in
        let output := <[S (S j) := table_at (Z.land (Z.shiftr triple (1 * 6)) 63)]> output in
        let output := <[S (S (S j)) := table_at (Z.land (Z.shiftr triple (0 * 6)) 63)]> output in
        encode_loop fuel' input input_len i (S (S (S (S j)))) output
      else output
  end.

(** The second loop: [output\[encoded_len - 1 - i\] = '='] for
    [i < (3 - input_len % 3) % 3], in [size_t] arithmetic. *)
Definition pad_loop (input_len encoded_len : Z) (output : list ascii) : list ascii :=
  foldl
    (fun out i => <[Z.to_nat (wrap_u32 (encoded_len - 1 - Z.of_nat i)) := "="%char]> out)
    output
    (seq 0 (Z.to_nat (wrap_u32 (3 - input_len mod 3) mod 3))).

(** [base64_encode].  A pointer argument is [None] when null and otherwise
    holds the array it points to; the result is the returned [int] and the
    output array after the call. *)
Definition base64_encode (input : option (list byte)) (input_len : Z)
    (output : option (list ascii)) (output_len : Z) : Z * option (list ascii) :=
  match input, output with
  | Some input, Some output =>
      if input_len =? 0 then (ARUNIKA_ERROR_INVALID_PARAM, Some output)
      else
        let encoded_len := wrap_u32 (4 * (wrap_u32 (input_len + 2) / 3)) in
        if output_len <? wrap_u32 (encoded_len + 1) then (ARUNIKA_ERROR_MEMORY, Some output)
        else
          let n := Z.to_nat input_len in
          let output := encode_loop n input n 0 0 output in
          let output := pad_loop input_len encoded_len output in
          let output := <[Z.to_nat encoded_len := NUL]> output in
          (wrap_int encoded_len, Some output)
  | _, _ => (ARUNIKA_ERROR_INVALID_PARAM, output)
  end.

(** [base64_decode]: the body is the two null checks and an unconditional
    [return ARUNIKA_ERROR_INIT]; [output] is never written. *)
Definition base64_decode (input : option string) (output : option (list byte))
    (output_len : Z) : Z * option (list byte) :=
  match input, output with
  | Some _, Some _ => (ARUNIKA_ERROR_INIT, output)
  | _, _ => (ARUNIKA_ERROR_INVALID_PARAM, output)
  end.

(** [get_timestamp_ms]: the monotonic clock cut to [uint32_t]. *)
Definition get_timestamp_ms : M Z :=
  fun w => (wrap_u32 (monotonic_ms w), w).

(** [delay_ms]: [nanosleep] for [ms] milliseconds. *)
Definition delay_ms (ms : Z) : M unit :=
  fun w => (tt, mk_world (globals w) (monotonic_ms w + ms) (trace w ++ [Sleep ms])).

Definition arunika_error_string (error : Z) : string :=
  if error =? ARUNIKA_OK then "Success"
  else if error =? ARUNIKA_ERROR_INIT then "Initialization error"
  else if error =? ARUNIKA_ERROR_CONFIG then "Configuration error"
  else if error =? ARUNIKA_ERROR_NETWORK then "Network error"
  else if error =? ARUNIKA_ERROR_AUDIO then "Audio error"
  else if error =? ARUNIKA_ERROR_WEBSOCKET then "WebSocket error"
  else if error =? ARUNIKA_ERROR_MEMORY then "Memory error"
  else if error =? ARUNIKA_ERROR_TIMEOUT then "Timeout error"
  else if error =? ARUNIKA_ERROR_INVALID_PARAM then "Invalid parameter"
  else "Unknown error".

(** A caller's [char] buffer of [n] bytes, with some earlier content. *)
Definition buffer_of (n : nat) : list ascii := replicate n "#"%char.

(** ** config.c *)

(** The initialiser of the [static device_config_t default_config]. *)
Definition initial_default_config : device_config_t :=
  {| wifi_ssid := char_array MAX_SSID_LENGTH "YourWiFiNetwork";
     wifi_password := char_array MAX_PASSWORD_LENGTH "YourWiFiPassword";
     server_url := char_array MAX_URL_LENGTH "wss://api.arunika.com";
     device_id := char_array MAX_DEVICE_ID_LENGTH "ARUN_DEV_001234";
     server_port := 443;
     port_padding := [NUL; NUL];
     audio_format := AUDIO_FORMAT_MULAW |}.

(** [config_load]: the argument is the object [config] points to ([None] for
    the null pointer), the second result is that object after the call. *)
Definition config_load (config : option device_config_t)
    : M (Z * option device_config_t) :=
  match config with
  | None => ret (ARUNIKA_ERROR_INVALID_PARAM, None)
  | Some _ =>
      stored <- read default_config ;
      (* memcpy(config, &default_config, sizeof(device_config_t)) *)
      ret (ARUNIKA_OK, Some stored)
  end.

Definition config_save (config : option device_config_t) : M Z :=
  match config with
  | None => ret ARUNIKA_ERROR_INVALID_PARAM
  | Some c =>
      (* memcpy(&default_config, config, sizeof(device_config_t)) *)
      write (set_default_config c) ;;
      ret ARUNIKA_OK
  end.

(** ** audio.c *)

Definition audio_init : M Z :=
  write (set_audio_initialized true) ;;
  ret ARUNIKA_OK.

Definition audio_start_recording : M Z :=
  initialized <- read audio_initialized ;
  if negb initialized then ret ARUNIKA_ERROR_AUDIO
  else
    emit CaptureStart ;;
    write (set_is_recording true) ;;
    ret ARUNIKA_OK.

Definition audio_stop_recording : M Z :=
  recording <- read is_recording ;
  if negb recording then ret ARUNIKA_OK
  else
    emit CaptureStop ;;
    write (set_is_recording false) ;;
    ret ARUNIKA_OK.

Definition audio_read_buffer (buffer : option audio_buffer_t)
    : M (Z * option audio_buffer_t) :=
  recording <- read is_recording ;
  match buffer with
  | Some b =>
      if negb recording then ret (ARUNIKA_ERROR_INVALID_PARAM, buffer)
      else
        ret (ARUNIKA_OK,
             Some {| data := data b; size := 512; capacity := capacity b;
                     sample_rate := SAMPLE_RATE; format := AUDIO_FORMAT_MULAW |})
  | None => ret (ARUNIKA_ERROR_INVALID_PARAM, None)
  end.

Definition audio_play_buffer (buffer : option audio_buffer_t) : M Z :=
  initialized <- read audio_initialized ;
  match buffer with
  | Some b =>
      if negb initialized then ret ARUNIKA_ERROR_INVALID_PARAM
      else emit (PlayBuffer (size b)) ;; ret ARUNIKA_OK
  | None => ret ARUNIKA_ERROR_INVALID_PARAM
  end.

Definition audio_set_volume (volume : Z) : M Z := ret ARUNIKA_OK.

(** ** network.c *)

Definition network_init : M Z :=
  write (set_network_initialized true) ;;
  ret ARUNIKA_OK.

Definition network_connect_wifi (ssid password : option string) : M Z :=
  initialized <- read network_initialized ;
  match ssid, password with
  | Some ssid, Some _ =>
      if negb initialized then ret ARUNIKA_ERROR_INVALID_PARAM
      else
        emit (WifiConnect ssid) ;;
        delay_ms 2000 ;;
        write (set_wifi_connected true) ;;
        ret ARUNIKA_OK
  | _, _ => ret ARUNIKA_ERROR_INVALID_PARAM
  end.

Definition network_disconnect_wifi : M Z :=
  connected <- read wifi_connected ;
  if negb connected then ret ARUNIKA_OK
  else write (set_wifi_connected false) ;; ret ARUNIKA_OK.

Definition network_is_connected : M bool := read wifi_connected.

(** ** websocket.c *)

Definition websocket_connect (url : option string) (port : Z) (path : option string)
    : M Z :=
  match url, path with
  | Some url, Some path =>
      emit (WebsocketConnect url port path) ;;
      delay_ms 1000 ;;
      write (set_websocket_connected true) ;;
      ret ARUNIKA_OK
  | _, _ => ret ARUNIKA_ERROR_INVALID_PARAM
  end.

Definition websocket_disconnect : M Z :=
  connected <- read websocket_connected ;
  if negb connected then ret ARUNIKA_OK
  else write (set_websocket_connected false) ;; ret ARUNIKA_OK.

(** [websocket_send_audio_chunk]; every call is recorded with the sequence
    number it was given and the code it returns. *)
Definition websocket_send_audio_chunk (buffer : option audio_buffer_t) (seq_no : Z)
    : M Z :=
  connected <- read websocket_connected ;
  let r := match buffer with
           | Some _ => if negb connected then ARUNIKA_ERROR_INVALID_PARAM else ARUNIKA_OK
           | None => ARUNIKA_ERROR_INVALID_PARAM
           end in
  emit (SendAudioChunk seq_no r) ;;
  ret r.

Definition websocket_send_ping : M Z :=
  connected <- read websocket_connected ;
  if negb connected then ret ARUNIKA_ERROR_WEBSOCKET
  else emit SendPing ;; ret ARUNIKA_OK.

(** [websocket_receive_message]: nothing is ever written to [buffer]. *)
Definition websocket_receive_message (buffer : option string) (buffer_size : Z)
    : M (Z * option string) :=
  connected <- read websocket_connected ;
  match buffer with
  | Some _ =>
      if (buffer_size =? 0) || negb connected
      then ret (ARUNIKA_ERROR_INVALID_PARAM, buffer)
      else ret (0, buffer)
  | None => ret (ARUNIKA_ERROR_INVALID_PARAM, None)
  end.

Definition websocket_is_connected : M bool := read websocket_connected.

(** ** power.c *)

Definition power_init : M Z :=
  write (set_power_initialized true) ;;
  ret ARUNIKA_OK.

Definition power_enter_sleep_mode : M Z :=
  initialized <- read power_initialized ;
  if negb initialized then ret ARUNIKA_ERROR_INIT else ret ARUNIKA_OK.

Definition power_wake_up : M Z := ret ARUNIKA_OK.

Definition power_get_battery_level : M Z :=
  initialized <- read power_initialized ;
  if negb initialized then ret 0
  else
    current_time <- get_timestamp_ms ;
    last <- read last_check ;
    (if wrap_u32 (current_time - last) >? 10000 then
       level <- read battery_level ;
       (if level >? 0 then write (set_battery_level (wrap_u8 (level - 1))) else ret tt) ;;
       write (set_last_check current_time)
     else ret tt) ;;
    read battery_level.

Definition power_is_charging : M bool := ret false.

(** ** device.c *)

(** Automatic variables are declared without an initialiser; the content they
    start with is fixed here, and no path reads it before a callee has written
    the object. *)
Definition indeterminate_config : device_config_t :=
  {| wifi_ssid := replicate MAX_SSID_LENGTH NUL;
     wifi_password := replicate MAX_PASSWORD_LENGTH NUL;
     server_url := replicate MAX_URL_LENGTH NUL;
     device_id := replicate MAX_DEVICE_ID_LENGTH NUL;
     server_port := 0;
     port_padding := [NUL; NUL];
     audio_format := AUDIO_FORMAT_PCM |}.
Definition indeterminate_buffer : audio_buffer_t :=
  {| data := []; size := 0; capacity := 0; sample_rate := 0;
     format := AUDIO_FORMAT_PCM |}.
Definition indeterminate_message : string := EmptyString.

Definition device_set_state (state : device_state_t) : M Z :=
  old <- read current_state ;
  emit (StateTransition old state) ;;
  write (set_current_state state) ;;
  ret ARUNIKA_OK.

Definition device_get_state : M device_state_t := read current_state.

Definition device_init : M Z :=
  '(r, config) <- config_load (Some indeterminate_config) ;
  if negb (r =? ARUNIKA_OK) then ret ARUNIKA_ERROR_CONFIG
  else
    r <- audio_init ;
    if negb (r =? ARUNIKA_OK) then ret ARUNIKA_ERROR_AUDIO
    else
      r <- network_init ;
      if negb (r =? ARUNIKA_OK) then ret ARUNIKA_ERROR_NETWORK
      else
        r <- power_init ;
        if negb (r =? ARUNIKA_OK) then ret ARUNIKA_ERROR_INIT
        else
          device_set_state DEVICE_STATE_IDLE ;;
          ret ARUNIKA_OK.

Definition device_handle_button_press : M Z :=
  state <- read current_state ;
  match state with
  | DEVICE_STATE_IDLE =>
      r <- audio_start_recording ;
      (if r =? ARUNIKA_OK
       then device_set_state DEVICE_STATE_RECORDING ;; ret tt
       else ret tt)
  | DEVICE_STATE_RECORDING =>
      audio_stop_recording ;;
      device_set_state DEVICE_STATE_PROCESSING ;;
      ret tt
  | _ => ret tt
  end ;;
  ret ARUNIKA_OK.

Definition device_process_incoming_message (message : string) : M Z :=
  match strstr message "ai_response" with
  | Some _ =>
      device_set_state DEVICE_STATE_PLAYING ;;
      delay_ms 2000 ;;
      device_set_state DEVICE_STATE_IDLE ;;
      ret tt
  | None => ret tt
  end ;;
  ret ARUNIKA_OK.

(** ** main.c *)

(** How the part of [main] before the loop ends: with a [return], or by
    entering [while (1)] with the configuration it loaded. *)
Inductive boot_result : Set :=
| Exit (code : Z)
| Running (device_config : device_config_t).

Definition main_boot : M boot_result :=
  r <- device_init ;
  if negb (r =? ARUNIKA_OK) then ret (Exit (-1))
  else
    '(_, loaded) <- config_load (Some indeterminate_config) ;
    let device_config := default indeterminate_config loaded in
    r <- network_connect_wifi (Some (c_str (from_wifi_ssid device_config)))
                              (Some (c_str (from_wifi_password device_config))) ;
    if negb (r =? ARUNIKA_OK) then ret (Exit (-1))
    else ret (Running device_config).

(** One pass through the body of [while (1)]. *)
Definition main_loop_body (device_config : device_config_t) : M unit :=
  connected <- websocket_is_connected ;
  (if connected then
     '(n, message_buffer) <- websocket_receive_message (Some indeterminate_message) 1024 ;
     if n >? 0
     then device_process_incoming_message (default indeterminate_message message_buffer) ;;
          ret tt
     else ret tt
   else
     (* snprintf(ws_path, sizeof(ws_path), "/ws?device_id=%s", ...) *)
     let ws_path :=
       substring 0 127 ("/ws?device_id=" ++ c_str (from_device_id device_config)) in
     websocket_connect (Some (c_str (from_server_url device_config)))
                       (server_port device_config) (Some ws_path) ;;
     ret tt) ;;
  state <- device_get_state ;
  (if device_state_eqb state DEVICE_STATE_RECORDING then
     '(r, buffer) <- audio_read_buffer (Some indeterminate_buffer) ;
     if r =? ARUNIKA_OK then
       (* websocket_send_audio_chunk(&buffer, sequence++) *)
       seq_no <- read sequence ;
       write (set_sequence (wrap_int (seq_no + 1))) ;;
       websocket_send_audio_chunk buffer seq_no ;;
       ret tt
     else ret tt
   else ret tt) ;;
  battery <- power_get_battery_level ;
  delay_ms 10.

Fixpoint main_loop (passes : nat) (device_config : device_config_t) : M unit :=
  match passes with
  | O => ret tt
  | S passes' => main_loop_body device_config ;; main_loop passes' device_config
  end.

(** [main], observed for [passes] iterations of its loop: [Some code] when it
    has returned [code], [None] while it is still looping.  The [return 0]
    after [while (1)] has no path leading to it. *)
Definition main (passes : nat) : M (option Z) :=
  boot <- main_boot ;
  match boot with
  | Exit code => ret (Some code)
  | Running device_config => main_loop passes device_config ;; ret None
  end.

(** The machine at reset: every [static] holds its initialiser. *)
Definition power_on : world :=
  {| globals :=
       {| current_state := DEVICE_STATE_INIT;
          default_config := initial_default_config;
          audio_initialized := false;
          is_recording := false;
          network_initialized := false;
          wifi_connected := false;
          websocket_connected := false;
          power_initialized := false;
          battery_level := 85;
          last_check := 0;
          sequence := 0 |};
     monotonic_ms := 0;
     trace := [] |}.

(** ** Executions of the controller *)

(** The entry points the rest of the firmware drives the controller with. *)
Inductive event : Set :=
| DeviceInit                           (* device_init() *)
| ButtonPress                          (* device_handle_button_press() *)
| IncomingMessage (message : string)   (* device_process_incoming_message(message) *)
| LoopPass.                            (* one pass of main's loop *)

Definition step (device_config : device_config_t) (e : event) : M unit :=
  match e with
  | DeviceInit => device_init ;; ret tt
  | ButtonPress => device_handle_button_press ;; ret tt
  | IncomingMessage message => device_process_incoming_message message ;; ret tt
  | LoopPass => main_loop_body device_config
  end.

Fixpoint run (device_config : device_config_t) (events : list event) (w : world) : world :=
  match events with
  | [] => w
  | e :: rest => run device_config rest (after (step device_config e) w)
  end.

(** The worlds some execution from reset leads to. *)
Definition reachable (w : world) : Prop :=
  exists device_config events, w = run device_config events power_on.

(** ** Vocabulary of the properties *)

(** The sequence numbers given to [websocket_send_audio_chunk], in call order. *)
Definition sent_sequence_numbers (t : list action) : list Z :=
  omap (fun a => match a with SendAudioChunk n _ => Some n | _ => None end) t.

(** A recording runs from the button press that starts capture to the press
    that stops it (or to the start of the next one).  Reading a trace from its
    beginning: the recordings that are over, and the chunks of the one that is
    going on, if any. *)
Definition recording_scan : Type := list (list Z) * option (list Z).

Definition scan_action (s : recording_scan) (a : action) : recording_scan :=
  match a with
  | CaptureStart => (s.1 ++ option_list s.2, Some [])
  | CaptureStop => (s.1 ++ option_list s.2, None)
  | SendAudioChunk n _ => (s.1, (fun chunks => chunks ++ [n]) <$> s.2)
  | _ => s
  end.

Definition scan (t : list action) : recording_scan := foldl scan_action ([], None) t.

(** The sequence numbers of each recording of a trace, recording by recording. *)
Definition recordings (t : list action) : list (list Z) :=
  (scan t).1 ++ option_list (scan t).2.

(** The [int] a counter started at 0 holds after [k] increments. *)
Definition nth_sequence_number (k : nat) : Z := wrap_int (Z.of_nat k).

(** [\[0, n)] in increasing order. *)
Definition from_zero (n : nat) : list Z := Z.of_nat <$> seq 0 n.

(** Consecutive runs of one numbering: the first has [lengths\[0\]] numbers
    from [start] on, the next continues where it stopped. *)
Fixpoint consecutive_runs (start : nat) (lengths : list nat) : list (list Z) :=
  match lengths with
  | [] => []
  | n :: rest =>
      (nth_sequence_number <$> seq start n) :: consecutive_runs (start + n) rest
  end.

(** The four characters [base64_encode] writes for one group of octets. *)
Definition quad (octet_a octet_b octet_c : Z) : list ascii :=
  let triple := wrap_u32 (Z.shiftl octet_a 16 + Z.shiftl octet_b 8 + octet_c) in
  [ table_at (Z.land (Z.shiftr triple (3 * 6)) 63);
    table_at (Z.land (Z.shiftr triple (2 * 6)) 63);
    table_at (Z.land (Z.shiftr triple (1 * 6)) 63);
    table_at (Z.land (Z.shiftr triple (0 * 6)) 63) ].

Definition byte_value (b : byte) : Z := Z.of_N (Byte.to_N b).

(** What the first loop has written once it is over: a quad per group of three
    octets, a short last group being filled with zero octets. *)
Fixpoint quads (input : list byte) : list ascii :=
  match input with
  | [] => []
  | [a] => quad (byte_value a) 0 0
  | [a; b] => quad (byte_value a) (byte_value b) 0
  | a :: b :: c :: rest => quad (byte_value a) (byte_value b) (byte_value c) ++ quads rest
  end.

(** The number of ['='] a text of [n] octets ends with. *)
Definition padding (n : nat) : nat := (3 - n mod 3) mod 3.

(** [⌈a / b⌉]. *)
Definition ceil_div (a b : Z) : Z := - (- a / b).

Definition alphabet : list ascii := list_ascii_of_string base64_table.

(** Inbound frames, as the server sends them: [{"type":"<type>"<rest>}]. *)
Definition quoted (s : string) : string :=
  String "034"%char (s ++ String "034"%char EmptyString).
Definition frame (type rest : string) : string :=
  "{" ++ quoted "type" ++ ":" ++ quoted type ++ rest ++ "}".
Definition status_frame : string := frame "status" "".
Definition ai_response_frame : string :=
  frame "ai_response" ("," ++ quoted "data" ++ ":" ++ quoted "Zg==").

(** The world with the channel flag forced to [up]. *)
Definition with_channel (up : bool) (w : world) : world :=
  mk_world (set_websocket_connected up (globals w)) (monotonic_ms w) (trace w).

(** [config] with [id] stored as its device identifier. *)
Definition with_device_id (id : list ascii) (config : device_config_t) : device_config_t :=
  {| wifi_ssid := wifi_ssid config;
     wifi_password := wifi_password config;
     server_url := server_url config;
     device_id := id;
     server_port := server_port config;
     port_padding := port_padding config;
     audio_format := audio_format config |}.

(** What one pass of the loop adds to the trace, from the world it starts in. *)
Definition connect_actions (device_config : device_config_t) (w : world) : list action :=
  if websocket_connected (globals w) then []
  else [ WebsocketConnect (c_str (from_server_url device_config))
           (server_port device_config)
           (substring 0 127 ("/ws?device_id=" ++ c_str (from_device_id device_config)));
         Sleep 1000 ].

(** A pass sends a chunk when the state is Recording and capture is running. *)
Definition sends_chunk (w : world) : bool :=
  device_state_eqb (current_state (globals w)) DEVICE_STATE_RECORDING
  && is_recording (globals w).

(** The actions that neither start nor stop capture nor send a chunk. *)
Definition quiet (a : action) : Prop :=
  match a with
  | CaptureStart | CaptureStop | SendAudioChunk _ _ => False
  | _ => True
  end.

(** What every execution keeps true: in Recording capture is running, audio
    is initialised and a recording is open in the trace; the [sequence]
    counter of [main] has been incremented once per chunk sent so far; the
    chunks sent so far are numbered from 0 on; and every chunk belongs to a
    recording. *)
Definition controller_invariant (w : world) : Prop :=
  (current_state (globals w) = DEVICE_STATE_RECORDING ->
   is_recording (globals w) = true /\
   audio_initialized (globals w) = true /\
   (scan (trace w)).2 <> None) /\
  sequence (globals w)
    = nth_sequence_number (length (sent_sequence_numbers (trace w))) /\
  sent_sequence_numbers (trace w)
    = nth_sequence_number <$> seq 0 (length (sent_sequence_numbers (trace w))) /\
  concat (recordings (trace w)) = sent_sequence_numbers (trace w).

(** An execution with two recordings of two chunks each. *)
Definition two_recordings : list event :=
  [ DeviceInit; LoopPass;
    ButtonPress; LoopPass; LoopPass; ButtonPress;
    IncomingMessage ai_response_frame;
    ButtonPress; LoopPass; LoopPass ].

(** The text [base64_encode] leaves in the output buffer for [input]: the
    quads of the first loop with the last [padding] characters overwritten. *)
Definition encoded_text (input : list byte) : list ascii :=
  take (length (quads input) - padding (length input)) (quads input)
  ++ replicate (padding (length input)) "="%char.

(** ** Vocabulary of the further properties *)

(** The caller's side of [base64_encode(input, input_len, output, output_len)]:
    a text of at least one octet whose encoded length fits an [int], and a
    buffer that really has the [output_len] bytes announced, enough for the
    encoding and its terminator. *)
Definition encodable (input : list byte) (output : list ascii) (output_len : Z) : Prop :=
  input <> [] /\
  4 * ceil_div (Z.of_nat (length input)) 3 <= INT_MAX /\
  4 * ceil_div (Z.of_nat (length input)) 3 < output_len <= Z.of_nat (length output).

(** The buffer [base64_encode] leaves, and the C string in it. *)
Definition encoded_buffer (input : list byte) (output : list ascii) (output_len : Z)
    : option (list ascii) :=
  (base64_encode (Some input) (Z.of_nat (length input)) (Some output) output_len).2.

Definition encoded_string (input : list byte) (output : list ascii) (output_len : Z)
    : option string :=
  c_str <$> encoded_buffer input output output_len.

(** The position of a character in a table. *)
Fixpoint index_of (ch : ascii) (table : list ascii) : option nat :=
  match table with
  | [] => None
  | c :: rest => if Ascii.eqb ch c then Some O else S <$> index_of ch rest
  end.

(** The six bits a character of the table stands for (0 for any other). *)
Definition sextet_of (ch : ascii) : Z :=
  match index_of ch alphabet with
  | Some i => Z.of_nat i
  | None => 0
  end.

(** The octets a padded text stands for, read four characters at a time.  The
    firmware has no such reader; this one is the yardstick for what the
    encoder keeps of its input. *)
Fixpoint octets_of_text (text : list ascii) : list Z :=
  match text with
  | c0 :: c1 :: c2 :: c3 :: rest =>
      let triple :=
        sextet_of c0 * 2 ^ 18 + sextet_of c1 * 2 ^ 12 + sextet_of c2 * 2 ^ 6 + sextet_of c3 in
      if Ascii.eqb c2 "="%char then [triple / 2 ^ 16]
      else if Ascii.eqb c3 "="%char then [triple / 2 ^ 16; (triple / 2 ^ 8) mod 256]
      else triple / 2 ^ 16 :: (triple / 2 ^ 8) mod 256 :: triple mod 256
             :: octets_of_text rest
  | _ => []
  end.

(** The states the device is found in when an entry point has returned. *)
Definition settled (state : device_state_t) : Prop :=
  state = DEVICE_STATE_INIT \/ state = DEVICE_STATE_IDLE \/
  state = DEVICE_STATE_RECORDING \/ state = DEVICE_STATE_PROCESSING.

(** The actions the controller and the loop of [main] take: transitions to
    Idle, Recording, Processing and Playing, sleeps, capture start and stop,
    channel connection, and chunks the transport accepts. *)
Definition controller_action (a : action) : Prop :=
  match a with
  | StateTransition _ to =>
      to = DEVICE_STATE_IDLE \/ to = DEVICE_STATE_RECORDING \/
      to = DEVICE_STATE_PROCESSING \/ to = DEVICE_STATE_PLAYING
  | SendAudioChunk _ r => r = ARUNIKA_OK
  | PlayBuffer _ | SendPing | WifiConnect _ => False
  | Sleep _ | CaptureStart | CaptureStop | WebsocketConnect _ _ _ => True
  end.

(** A call of one of the functions [arunika.h] declares, with its arguments;
    a pointer argument is [None] when null. *)
Inductive api_call : Set :=
| Call_device_init
| Call_audio_init
| Call_network_init
| Call_power_init
| Call_config_load (config : option device_config_t)
| Call_config_save (config : option device_config_t)
| Call_audio_start_recording
| Call_audio_stop_recording
| Call_audio_read_buffer (buffer : option audio_buffer_t)
| Call_audio_play_buffer (buffer : option audio_buffer_t)
| Call_audio_set_volume (volume : Z)
| Call_network_connect_wifi (ssid password : option string)
| Call_network_disconnect_wifi
| Call_network_is_connected
| Call_websocket_connect (url : option string) (port : Z) (path : option string)
| Call_websocket_disconnect
| Call_websocket_send_audio_chunk (buffer : option audio_buffer_t) (seq_no : Z)
| Call_websocket_send_ping
| Call_websocket_receive_message (buffer : option string) (buffer_size : Z)
| Call_websocket_is_connected
| Call_device_set_state (state : device_state_t)
| Call_device_get_state
| Call_device_handle_button_press
| Call_device_process_incoming_message (message : string)
| Call_power_enter_sleep_mode
| Call_power_wake_up
| Call_power_get_battery_level
| Call_power_is_charging
| Call_get_timestamp_ms
| Call_delay_ms (ms : Z).

Definition perform (c : api_call) : M unit :=
  match c with
  | Call_device_init => device_init ;; ret tt
  | Call_audio_init => audio_init ;; ret tt
  | Call_network_init => network_init ;; ret tt
  | Call_power_init => power_init ;; ret tt
  | Call_config_load config => config_load config ;; ret tt
  | Call_config_save config => config_save config ;; ret tt
  | Call_audio_start_recording => audio_start_recording ;; ret tt
  | Call_audio_stop_recording => audio_stop_recording ;; ret tt
  | Call_audio_read_buffer buffer => audio_read_buffer buffer ;; ret tt
  | Call_audio_play_buffer buffer => audio_play_buffer buffer ;; ret tt
  | Call_audio_set_volume volume => audio_set_volume volume ;; ret tt
  | Call_network_connect_wifi ssid password => network_connect_wifi ssid password ;; ret tt
  | Call_network_disconnect_wifi => network_disconnect_wifi ;; ret tt
  | Call_network_is_connected => network_is_connected ;; ret tt
  | Call_websocket_connect url port path => websocket_connect url port path ;; ret tt
  | Call_websocket_disconnect => websocket_disconnect ;; ret tt
  | Call_websocket_send_audio_chunk buffer seq_no =>
      websocket_send_audio_chunk buffer seq_no ;; ret tt
  | Call_websocket_send_ping => websocket_send_ping ;; ret tt
  | Call_websocket_receive_message buffer buffer_size =>
      websocket_receive_message buffer buffer_size ;; ret tt
  | Call_websocket_is_connected => websocket_is_connected ;; ret tt
  | Call_device_set_state state => device_set_state state ;; ret tt
  | Call_device_get_state => device_get_state ;; ret tt
  | Call_device_handle_button_press => device_handle_button_press ;; ret tt
  | Call_device_process_incoming_message message =>
      device_process_incoming_message message ;; ret tt
  | Call_power_enter_sleep_mode => power_enter_sleep_mode ;; ret tt
  | Call_power_wake_up => power_wake_up ;; ret tt
  | Call_power_get_battery_level => power_get_battery_level ;; ret tt
  | Call_power_is_charging => power_is_charging ;; ret tt
  | Call_get_timestamp_ms => get_timestamp_ms ;; ret tt
  | Call_delay_ms ms => delay_ms ms
  end.

(** The world after a sequence of calls. *)
Fixpoint perform_all (calls : list api_call) (w : world) : world :=
  match calls with
  | [] => w
  | c :: rest => perform_all rest (after (perform c) w)
  end.

(** What the subsystems keep true whatever the caller does. *)
Definition subsystems_consistent (w : world) : Prop :=
  (is_recording (globals w) = true -> audio_initialized (globals w) = true) /\
  (wifi_connected (globals w) = true -> network_initialized (globals w) = true) /\
  0 <= battery_level (globals w) <= 85.

(** * Properties *)

(** Name every component of a world. *)
Ltac destruct_world w :=
  destruct w as [[st cfg ai rec ni wc ws pi bl lc sq] ms t].

(** ** C integers *)

Lemma wrap_int_small z : INT_MIN <= z <= INT_MAX -> wrap_int z = z.
Proof.
  unfold wrap_int, INT_MIN, INT_MAX. intros H.
  rewrite Z.mod_small by lia. lia.
Qed.

Lemma wrap_int_succ z : wrap_int (wrap_int z + 1) = wrap_int (z + 1).
Proof.
  unfold wrap_int.
  replace ((z + 2 ^ 31) mod 2 ^ 32 - 2 ^ 31 + 1 + 2 ^ 31)
    with ((z + 2 ^ 31) mod 2 ^ 32 + 1) by lia.
  replace (z + 1 + 2 ^ 31) with ((z + 2 ^ 31) + 1) by lia.
  now rewrite Zplus_mod_idemp_l.
Qed.

Lemma wrap_u32_small z : 0 <= z < UINT32_MOD -> wrap_u32 z = z.
Proof. intros H. unfold wrap_u32. now apply Z.mod_small. Qed.

(** ** The configuration store (config.c) *)

(** C10.  For every configuration [c] and every object [out], [config_save]
    of a pointer to [c] returns [ARUNIKA_OK], and a following [config_load]
    into [out] returns [ARUNIKA_OK] and leaves [c] in it, whatever [out] held
    and whatever the store held before. *)
Theorem config_save_load_roundtrip (c out : device_config_t) (w : world) :
  result (config_save (Some c)) w = ARUNIKA_OK /\
  result (config_load (Some out)) (after (config_save (Some c)) w)
    = (ARUNIKA_OK, Some c).
Proof. split; reflexivity. Qed.

(** Saving touches the store and nothing else; loading touches nothing. *)
Lemma config_save_after (c : device_config_t) (w : world) :
  after (config_save (Some c)) w
    = mk_world (set_default_config c (globals w)) (monotonic_ms w) (trace w).
Proof. reflexivity. Qed.

Lemma config_load_after (out : device_config_t) (w : world) :
  after (config_load (Some out)) w = w.
Proof. destruct w; reflexivity. Qed.

(** ** Boot (device.c, main.c) *)

Lemma device_init_effect (w : world) :
  device_init w =
    (ARUNIKA_OK,
     mk_world
       (set_current_state DEVICE_STATE_IDLE
          (set_power_initialized true
             (set_network_initialized true
                (set_audio_initialized true (globals w)))))
       (monotonic_ms w)
       (trace w ++ [StateTransition (current_state (globals w)) DEVICE_STATE_IDLE])).
Proof. reflexivity. Qed.

(** C6, as the claim states it, fails at reset: [device_init] succeeds and
    the state it leaves is not [DEVICE_STATE_CONNECTING]. *)
Lemma device_init_does_not_enter_connecting :
  ~ (result device_init power_on = ARUNIKA_OK ->
     current_state (globals (after device_init power_on)) = DEVICE_STATE_CONNECTING).
Proof. intros H. specialize (H eq_refl). discriminate H. Qed.

(** C6, amended.  From any state, [device_init] with the firmware's own
    subsystems succeeds and makes exactly one state transition, to
    [DEVICE_STATE_IDLE]; it neither connects WiFi nor opens the channel and
    leaves both connection flags as they were.  The link is asked for by
    [main] once [device_init] has returned: WiFi before the loop, the
    channel in the first pass of the loop. *)
Theorem device_init_goes_to_idle (w : world) :
  result device_init w = ARUNIKA_OK /\
  current_state (globals (after device_init w)) = DEVICE_STATE_IDLE /\
  trace (after device_init w)
    = trace w ++ [StateTransition (current_state (globals w)) DEVICE_STATE_IDLE] /\
  wifi_connected (globals (after device_init w)) = wifi_connected (globals w) /\
  websocket_connected (globals (after device_init w)) = websocket_connected (globals w) /\
  trace (after (main 1) power_on)
    = [ StateTransition DEVICE_STATE_INIT DEVICE_STATE_IDLE;
        WifiConnect "YourWiFiNetwork"; Sleep 2000;
        WebsocketConnect "wss://api.arunika.com" 443 "/ws?device_id=ARUN_DEV_001234";
        Sleep 1000; Sleep 10 ].
Proof.
  unfold result, after. rewrite device_init_effect. cbn [fst snd globals trace].
  repeat split; vm_compute; reflexivity.
Qed.

(** ** The button (device.c) *)

Lemma button_press_result (w : world) :
  result device_handle_button_press w = ARUNIKA_OK.
Proof.
  destruct_world w.
  destruct st, ai, rec; reflexivity.
Qed.

(** C5, as the claim states it, fails in the state [device_set_state
    (DEVICE_STATE_IDLE)] leaves at reset, with the audio subsystem not yet
    initialised: the press does not move the device to Recording. *)
Lemma button_press_in_idle_without_audio :
  ~ (current_state (globals (after (device_set_state DEVICE_STATE_IDLE) power_on))
       = DEVICE_STATE_IDLE ->
     current_state
       (globals (after device_handle_button_press
                   (after (device_set_state DEVICE_STATE_IDLE) power_on)))
       = DEVICE_STATE_RECORDING).
Proof. intros H. specialize (H eq_refl). discriminate H. Qed.

(** C5, amended.  [device_handle_button_press] always returns [ARUNIKA_OK]
    and toggles as follows.  In Idle with the audio subsystem initialised it
    starts capture and moves to Recording; in Idle with the audio subsystem
    not initialised [audio_start_recording] fails and nothing changes; in
    Recording it stops capture and moves to Processing. *)
Theorem button_press_toggles (w : world) :
  result device_handle_button_press w = ARUNIKA_OK /\
  (current_state (globals w) = DEVICE_STATE_IDLE ->
   audio_initialized (globals w) = true ->
   after device_handle_button_press w
     = mk_world
         (set_current_state DEVICE_STATE_RECORDING (set_is_recording true (globals w)))
         (monotonic_ms w)
         (trace w ++ [CaptureStart;
                      StateTransition DEVICE_STATE_IDLE DEVICE_STATE_RECORDING])) /\
  (current_state (globals w) = DEVICE_STATE_IDLE ->
   audio_initialized (globals w) = false ->
   after device_handle_button_press w = w) /\
  (current_state (globals w) = DEVICE_STATE_RECORDING ->
   current_state (globals (after device_handle_button_press w)) = DEVICE_STATE_PROCESSING /\
   is_recording (globals (after device_handle_button_press w)) = false /\
   trace (after device_handle_button_press w)
     = trace w
       ++ (if is_recording (globals w) then [CaptureStop] else [])
       ++ [StateTransition DEVICE_STATE_RECORDING DEVICE_STATE_PROCESSING]).
Proof.
  split; [apply button_press_result |].
  destruct_world w.
  cbn [globals current_state audio_initialized is_recording trace monotonic_ms].
  repeat split; intros; subst; cbn; try reflexivity.
  all: destruct rec; cbn; rewrite <- ?app_assoc; reflexivity.
Qed.

Lemma button_press_toggles_witness :
  current_state
    (globals (after device_handle_button_press (after device_init power_on)))
    = DEVICE_STATE_RECORDING /\
  after device_handle_button_press (after (device_set_state DEVICE_STATE_IDLE) power_on)
    = after (device_set_state DEVICE_STATE_IDLE) power_on /\
  current_state
    (globals (after device_handle_button_press
                (after device_handle_button_press (after device_init power_on))))
    = DEVICE_STATE_PROCESSING.
Proof.
  split; [| split].
  - destruct (button_press_toggles (after device_init power_on)) as (_ & H & _).
    rewrite H; reflexivity.
  - destruct (button_press_toggles (after (device_set_state DEVICE_STATE_IDLE) power_on))
      as (_ & _ & H & _).
    apply H; reflexivity.
  - destruct (button_press_toggles
                (after device_handle_button_press (after device_init power_on)))
      as (_ & _ & _ & H).
    apply H; reflexivity.
Defined.

(** ** Inbound messages (device.c) *)

(** C8, as the claim states it, fails for the frame [{"type":"status"}]
    received after initialisation: no variable of the program, whichever one
    were taken to be the counter, is one higher afterwards. *)
Lemma unknown_message_increments_no_counter :
  ~ exists counter : statics -> Z,
      counter (globals (after (device_process_incoming_message status_frame)
                          (after device_init power_on)))
        = counter (globals (after device_init power_on)) + 1.
Proof.
  intros [counter H].
  change (after (device_process_incoming_message status_frame) (after device_init power_on))
    with (after device_init power_on) in H.
  lia.
Qed.

(** C8, amended.  For every inbound message that does not contain the text
    [ai_response] (so for [ping], [pong] and any other type that does not
    mention it), [device_process_incoming_message] returns [ARUNIKA_OK] and
    changes nothing: the device state, every other variable, the clock and the
    actions taken are as before, so nothing counts the dropped message. *)
Theorem unknown_message_is_dropped (message : string) (w : world) :
  strstr message "ai_response" = None ->
  device_process_incoming_message message w = (ARUNIKA_OK, w) /\
  forall counter : world -> Z,
    counter (after (device_process_incoming_message message) w) = counter w.
Proof.
  intros Hnone.
  assert (H : device_process_incoming_message message w = (ARUNIKA_OK, w)).
  { unfold device_process_incoming_message, bind. rewrite Hnone. reflexivity. }
  split; [exact H |].
  intros counter. unfold after. now rewrite H.
Qed.

Lemma unknown_message_is_dropped_witness :
  device_process_incoming_message status_frame (after device_init power_on)
    = (ARUNIKA_OK, after device_init power_on) /\
  device_process_incoming_message (frame "ping" "") power_on = (ARUNIKA_OK, power_on).
Proof.
  split.
  - apply (unknown_message_is_dropped status_frame (after device_init power_on)).
    reflexivity.
  - apply (unknown_message_is_dropped (frame "ping" "") power_on).
    reflexivity.
Defined.

(** The device two button presses after initialisation: waiting for the reply. *)
Lemma awaiting_reply_is_processing :
  current_state
    (globals (run initial_default_config [DeviceInit; ButtonPress; ButtonPress] power_on))
    = DEVICE_STATE_PROCESSING.
Proof. reflexivity. Qed.

(** C9, as the claim states it, fails for an [ai_response] frame received
    in Processing: when [device_process_incoming_message] returns, the state
    is not Playing. *)
Lemma ai_response_leaves_idle_not_playing :
  ~ (current_state
       (globals (run initial_default_config [DeviceInit; ButtonPress; ButtonPress] power_on))
       = DEVICE_STATE_PROCESSING ->
     current_state
       (globals (after (device_process_incoming_message ai_response_frame)
                   (run initial_default_config [DeviceInit; ButtonPress; ButtonPress]
                      power_on)))
       = DEVICE_STATE_PLAYING).
Proof. intros H. specialize (H eq_refl). discriminate H. Qed.

(** C9, amended.  For every inbound message that contains the text
    [ai_response], in whatever state it is processed,
    [device_process_incoming_message] sets the state to Playing, sleeps for
    the 2000 ms that stand for the playback, sets the state to Idle and
    returns [ARUNIKA_OK]: the state is Playing for the length of that sleep
    and Idle when the call returns. *)
Theorem ai_response_plays_then_idles (message : string) (w : world) :
  strstr message "ai_response" <> None ->
  result (device_process_incoming_message message) w = ARUNIKA_OK /\
  current_state (globals (after (device_process_incoming_message message) w))
    = DEVICE_STATE_IDLE /\
  monotonic_ms (after (device_process_incoming_message message) w)
    = monotonic_ms w + 2000 /\
  trace (after (device_process_incoming_message message) w)
    = trace w ++ [ StateTransition (current_state (globals w)) DEVICE_STATE_PLAYING;
                   Sleep 2000;
                   StateTransition DEVICE_STATE_PLAYING DEVICE_STATE_IDLE ].
Proof.
  intros Hsome.
  unfold result, after, device_process_incoming_message, bind.
  destruct (strstr message "ai_response") as [suffix |]; [| congruence].
  cbn. rewrite <- !app_assoc. repeat split; reflexivity.
Qed.

Lemma ai_response_plays_then_idles_witness :
  current_state
    (globals (after (device_process_incoming_message ai_response_frame)
                (run initial_default_config [DeviceInit; ButtonPress; ButtonPress]
                   power_on)))
    = DEVICE_STATE_IDLE.
Proof.
  apply (ai_response_plays_then_idles ai_response_frame
           (run initial_default_config [DeviceInit; ButtonPress; ButtonPress] power_on)).
  vm_compute. discriminate.
Defined.

(** ** Executions (main.c, device.c) *)

Lemma power_get_battery_level_frame (w : world) :
  exists r level last,
    power_get_battery_level w
      = (r, mk_world (set_last_check last (set_battery_level level (globals w)))
              (monotonic_ms w) (trace w)).
Proof.
  destruct_world w.
  cbv [power_get_battery_level bind read write ret get_timestamp_ms].
  cbn -[wrap_u32 wrap_u8 Z.gtb Z.sub]. destruct pi; cbn -[wrap_u32 wrap_u8 Z.gtb Z.sub].
  - destruct (wrap_u32 (wrap_u32 ms - lc) >? 10000); cbn -[wrap_u32 wrap_u8 Z.gtb Z.sub].
    + destruct (bl >? 0); cbn -[wrap_u32 wrap_u8 Z.gtb Z.sub]; eexists _, _, _; reflexivity.
    + eexists _, _, _; reflexivity.
  - eexists _, _, _; reflexivity.
Qed.

(** The invariant of the controller, for executions whose loop passes run
    with the configuration [main] loaded at boot. *)
Section Executions.

Context (device_config : device_config_t).

Lemma main_loop_body_effect (w : world) :
  let w' := after (main_loop_body device_config) w in
  current_state (globals w') = current_state (globals w) /\
  is_recording (globals w') = is_recording (globals w) /\
  audio_initialized (globals w') = audio_initialized (globals w) /\
  websocket_connected (globals w') = true /\
  sequence (globals w')
    = (if sends_chunk w then wrap_int (sequence (globals w) + 1) else sequence (globals w)) /\
  trace w'
    = trace w ++ connect_actions device_config w
      ++ (if sends_chunk w then [SendAudioChunk (sequence (globals w)) ARUNIKA_OK] else [])
      ++ [Sleep 10].
Proof.
  destruct_world w.
  unfold sends_chunk, connect_actions.
  cbn [globals current_state is_recording audio_initialized websocket_connected sequence trace].
  destruct ws, (device_state_eqb st DEVICE_STATE_RECORDING) eqn:Hst, rec;
    destruct st; try discriminate Hst;
    cbv [after main_loop_body bind read write ret emit
      websocket_is_connected websocket_receive_message websocket_connect
      device_get_state audio_read_buffer websocket_send_audio_chunk delay_ms];
    cbn -[wrap_int Z.add substring String.append c_str power_get_battery_level];
    match goal with
    | |- context [power_get_battery_level ?W] =>
        destruct (power_get_battery_level_frame W) as (r & level & last & ->)
    end;
    cbn -[wrap_int Z.add substring String.append c_str];
    rewrite <- ?app_assoc; repeat split; reflexivity.
Qed.

Lemma sent_sequence_numbers_app (t d : list action) :
  sent_sequence_numbers (t ++ d) = sent_sequence_numbers t ++ sent_sequence_numbers d.
Proof. apply omap_app. Qed.

Lemma scan_app (t d : list action) : scan (t ++ d) = foldl scan_action (scan t) d.
Proof. apply foldl_app. Qed.

Lemma nth_sequence_number_succ (k : nat) :
  wrap_int (nth_sequence_number k + 1) = nth_sequence_number (S k).
Proof.
  unfold nth_sequence_number. rewrite wrap_int_succ. f_equal. lia.
Qed.

Lemma numbering_snoc (k : nat) :
  (nth_sequence_number <$> seq 0 k) ++ [nth_sequence_number k]
    = nth_sequence_number <$> seq 0 (S k).
Proof. rewrite seq_S, fmap_app. reflexivity. Qed.

Lemma controller_invariant_power_on : controller_invariant power_on.
Proof. split; [intros H; discriminate H | repeat split]. Qed.

Lemma quiet_sent (d : list action) : Forall quiet d -> sent_sequence_numbers d = [].
Proof.
  induction 1 as [| a d Ha _ IH]; [reflexivity |].
  destruct a; try contradiction; exact IH.
Qed.

Lemma quiet_scan (d : list action) (s : recording_scan) :
  Forall quiet d -> foldl scan_action s d = s.
Proof.
  intros Hd. revert s.
  induction Hd as [| a d Ha _ IH]; intros s; [reflexivity |].
  destruct a; try contradiction; cbn; apply IH.
Qed.

(** A step that neither starts nor stops capture nor sends a chunk, and that
    does not enter Recording, keeps the invariant. *)
Lemma controller_invariant_quiet (w w' : world) (d : list action) :
  controller_invariant w ->
  current_state (globals w') <> DEVICE_STATE_RECORDING \/
    (current_state (globals w) = DEVICE_STATE_RECORDING /\
     is_recording (globals w') = is_recording (globals w) /\
     audio_initialized (globals w') = audio_initialized (globals w)) ->
  sequence (globals w') = sequence (globals w) ->
  trace w' = trace w ++ d ->
  Forall quiet d ->
  controller_invariant w'.
Proof.
  intros (Hrec & Hseq & Hsent & Hcat) Hst Hsq Ht Hd.
  unfold controller_invariant, recordings.
  rewrite Ht, sent_sequence_numbers_app, (quiet_sent d Hd), app_nil_r, scan_app,
    (quiet_scan d _ Hd), Hsq.
  split; [| repeat split; assumption].
  intros Hr. destruct Hst as [Hst | (Hw & Hi & Ha)]; [contradiction |].
  destruct (Hrec Hw) as (H1 & H2 & H3). repeat split; congruence.
Qed.

Lemma concat_snoc_nil {A} (l : list (list A)) : concat (l ++ [[]]) = concat l.
Proof. rewrite concat_app. cbn. apply app_nil_r. Qed.

(** A press that starts capture opens a new recording. *)
Lemma controller_invariant_start (w w' : world) (from to : device_state_t) :
  controller_invariant w ->
  is_recording (globals w') = true ->
  audio_initialized (globals w') = true ->
  sequence (globals w') = sequence (globals w) ->
  trace w' = trace w ++ [CaptureStart; StateTransition from to] ->
  controller_invariant w'.
Proof.
  intros (Hrec & Hseq & Hsent & Hcat) Hi Ha Hsq Ht.
  unfold controller_invariant, recordings in *.
  rewrite Ht, sent_sequence_numbers_app, scan_app, Hsq.
  destruct (scan (trace w)) as [closed open]. cbn in *.
  rewrite !app_nil_r, concat_snoc_nil.
  split; [intros _; repeat split; [assumption .. | discriminate] |].
  repeat split; assumption.
Qed.

(** A press that stops capture closes the recording. *)
Lemma controller_invariant_stop (w w' : world) (from to : device_state_t) :
  controller_invariant w ->
  current_state (globals w') <> DEVICE_STATE_RECORDING ->
  sequence (globals w') = sequence (globals w) ->
  trace w' = trace w ++ [CaptureStop; StateTransition from to] ->
  controller_invariant w'.
Proof.
  intros (Hrec & Hseq & Hsent & Hcat) Hst Hsq Ht.
  unfold controller_invariant, recordings in *.
  rewrite Ht, sent_sequence_numbers_app, scan_app, Hsq.
  destruct (scan (trace w)) as [closed open]. cbn in *.
  rewrite !app_nil_r.
  split; [intros Hr; contradiction | repeat split; assumption].
Qed.

(** A pass that sends a chunk adds it to the open recording under the next
    number. *)
Lemma controller_invariant_send (w w' : world) (d : list action) (r : Z) :
  controller_invariant w ->
  current_state (globals w) = DEVICE_STATE_RECORDING ->
  current_state (globals w') = current_state (globals w) ->
  is_recording (globals w') = is_recording (globals w) ->
  audio_initialized (globals w') = audio_initialized (globals w) ->
  sequence (globals w') = wrap_int (sequence (globals w) + 1) ->
  trace w' = trace w ++ d ++ [SendAudioChunk (sequence (globals w)) r] ++ [Sleep 10] ->
  Forall quiet d ->
  controller_invariant w'.
Proof.
  intros (Hrec & Hseq & Hsent & Hcat) Hw Hst Hi Ha Hsq Ht Hd.
  destruct (Hrec Hw) as (H1 & H2 & H3).
  unfold controller_invariant, recordings in *.
  rewrite Ht, !sent_sequence_numbers_app, (quiet_sent d Hd), scan_app, foldl_app,
    (quiet_scan d _ Hd), Hsq, Hst, Hi, Ha.
  destruct (scan (trace w)) as [closed [chunks |]]; [| contradiction]. cbn in *.
  remember (sent_sequence_numbers (trace w)) as sent eqn:Esent.
  remember (sequence (globals w)) as sq eqn:Esq.
  clear Esent Esq.
  split; [intros _; repeat split; [assumption .. | discriminate] |].
  rewrite length_app, Nat.add_1_r. cbn [length].
  split; [rewrite Hseq; apply nth_sequence_number_succ |].
  split.
  - rewrite <- numbering_snoc, <- Hsent, <- Hseq. reflexivity.
  - rewrite <- Hcat, !concat_app. cbn. rewrite !app_nil_r, app_assoc. reflexivity.
Qed.

Lemma connect_actions_quiet (w : world) :
  Forall quiet (connect_actions device_config w).
Proof.
  unfold connect_actions. destruct (websocket_connected (globals w));
    repeat constructor.
Qed.

Lemma controller_invariant_step (e : event) (w : world) :
  controller_invariant w -> controller_invariant (after (step device_config e) w).
Proof.
  intros Hinv. destruct e as [| | message |].
  - (* device_init *)
    apply (controller_invariant_quiet w _
             [StateTransition (current_state (globals w)) DEVICE_STATE_IDLE]);
      [assumption | left; discriminate | reflexivity | reflexivity | repeat constructor].
  - (* device_handle_button_press *)
    destruct_world w.
    destruct st; try exact Hinv.
    + (* Recording *)
      destruct Hinv as (Hrec & Hrest). destruct (Hrec eq_refl) as (H1 & _).
      cbn in H1. subst rec.
      eapply controller_invariant_stop;
        [split; eassumption | discriminate | reflexivity |].
      cbn. rewrite <- app_assoc. reflexivity.
    + (* Idle *)
      destruct ai; [| exact Hinv].
      eapply controller_invariant_start; [exact Hinv | reflexivity .. |].
      cbn. rewrite <- app_assoc. reflexivity.
  - (* device_process_incoming_message *)
    unfold after, step, device_process_incoming_message, bind.
    destruct (strstr message "ai_response") as [suffix |].
    + apply (controller_invariant_quiet w _
               [StateTransition (current_state (globals w)) DEVICE_STATE_PLAYING;
                Sleep 2000;
                StateTransition DEVICE_STATE_PLAYING DEVICE_STATE_IDLE]);
        [assumption | left; discriminate | reflexivity | | repeat constructor].
      cbn. rewrite <- !app_assoc. reflexivity.
    + destruct w; exact Hinv.
  - (* one pass of the loop *)
    cbn [step].
    destruct (main_loop_body_effect w) as (Hst & Hi & Ha & _ & Hsq & Ht).
    destruct (sends_chunk w) eqn:Hsend.
    + apply andb_true_iff in Hsend as [Hr _].
      assert (Hw : current_state (globals w) = DEVICE_STATE_RECORDING)
        by (destruct (current_state (globals w)); try discriminate Hr; reflexivity).
      eapply controller_invariant_send; try eassumption.
      apply connect_actions_quiet.
    + apply (controller_invariant_quiet w _ (connect_actions device_config w ++ [Sleep 10]));
        [assumption | | assumption | exact Ht | ].
      * destruct (decide (current_state (globals w) = DEVICE_STATE_RECORDING)) as [Hw | Hw];
          [right; repeat split; assumption | left; congruence].
      * apply Forall_app; split; [apply connect_actions_quiet | repeat constructor].
Qed.

Lemma controller_invariant_run (events : list event) (w : world) :
  controller_invariant w -> controller_invariant (run device_config events w).
Proof.
  revert w. induction events as [| e events IH]; intros w Hinv; [exact Hinv |].
  cbn [run]. apply IH. now apply controller_invariant_step.
Qed.

End Executions.

Lemma reachable_invariant (w : world) : reachable w -> controller_invariant w.
Proof.
  intros (device_config & events & ->).
  apply controller_invariant_run, controller_invariant_power_on.
Qed.

(** C1, as the claim states it, fails right after initialisation: a button
    press puts the device in Recording while [websocket_is_connected()] is
    false. *)
Lemma recording_with_channel_down :
  ~ (current_state
       (globals (run initial_default_config [DeviceInit; ButtonPress] power_on))
       = DEVICE_STATE_RECORDING ->
     result websocket_is_connected
       (run initial_default_config [DeviceInit; ButtonPress] power_on) = true).
Proof. intros H. specialize (H eq_refl). discriminate H. Qed.

(** C1, amended.  In every execution from reset, the device state is never
    Recording while audio capture is not running (or the audio subsystem is
    not initialised).  A button press in Idle moves the state to Recording
    exactly when the audio subsystem is initialised, and what the press does
    is the same whether the channel is up or down. *)
Theorem recording_is_gated_by_capture (w : world) (up : bool) :
  (reachable w ->
   current_state (globals w) = DEVICE_STATE_RECORDING ->
   is_recording (globals w) = true /\ audio_initialized (globals w) = true) /\
  (current_state (globals w) = DEVICE_STATE_IDLE ->
   (current_state (globals (after device_handle_button_press w)) = DEVICE_STATE_RECORDING
    <-> audio_initialized (globals w) = true)) /\
  after device_handle_button_press (with_channel up w)
    = with_channel up (after device_handle_button_press w).
Proof.
  split; [| split].
  - intros Hreach Hr.
    destruct (reachable_invariant w Hreach) as (Hrec & _).
    destruct (Hrec Hr) as (H1 & H2 & _). now split.
  - destruct_world w. cbn. intros ->.
    destruct ai; cbn; split; congruence.
  - destruct_world w. destruct st, ai, rec; reflexivity.
Qed.

Lemma recording_is_gated_by_capture_witness :
  is_recording
    (globals (run initial_default_config [DeviceInit; ButtonPress] power_on)) = true /\
  audio_initialized
    (globals (run initial_default_config [DeviceInit; ButtonPress] power_on)) = true.
Proof.
  destruct (recording_is_gated_by_capture
              (run initial_default_config [DeviceInit; ButtonPress] power_on) false)
    as (H & _).
  apply H; [| reflexivity].
  exists initial_default_config, [DeviceInit; ButtonPress]. reflexivity.
Defined.

(** ** Sequence numbers (main.c) *)

Lemma runs_of_concat (rs : list (list Z)) (start : nat) :
  concat rs = nth_sequence_number <$> seq start (length (concat rs)) ->
  rs = consecutive_runs start (length <$> rs).
Proof.
  revert start. induction rs as [| r rs IH]; intros start H; [reflexivity |].
  cbn in H. rewrite length_app, seq_app, fmap_app in H.
  apply app_inj_1 in H as [Hr Hrs].
  - cbn. rewrite <- Hr. f_equal. now apply IH.
  - now rewrite length_fmap, length_seq.
Qed.

Lemma nth_sequence_number_small (k : nat) :
  Z.of_nat k <= INT_MAX -> nth_sequence_number k = Z.of_nat k.
Proof.
  intros H. apply wrap_int_small. unfold INT_MIN, INT_MAX in *. lia.
Qed.

Lemma two_recordings_numbers :
  recordings (trace (run initial_default_config two_recordings power_on))
    = [[0; 1]; [2; 3]].
Proof. vm_compute. reflexivity. Qed.

(** C2, as the claim states it, fails for the execution [two_recordings]:
    its second recording is numbered 2, 3 and not 0, 1. *)
Lemma second_recording_does_not_restart_at_zero :
  ~ Forall (fun chunks => chunks = from_zero (length chunks))
      (recordings (trace (run initial_default_config two_recordings power_on))).
Proof.
  rewrite two_recordings_numbers. intros H.
  apply Forall_cons in H as [_ H]. apply Forall_cons in H as [H _].
  discriminate H.
Qed.

(** C2, amended.  In every execution from reset, the sequence numbers given
    to [websocket_send_audio_chunk] are, over the whole execution and in call
    order, the values 0, 1, 2, ... of one [int] counter that is never reset;
    every chunk belongs to a recording; so the numbers of a recording are
    contiguous and increasing, the first recording starts at 0 and every later
    one continues where the one before it stopped. *)
Theorem sequence_numbers_run_on_across_recordings (device_config : device_config_t)
    (events : list event) :
  let t := trace (run device_config events power_on) in
  sent_sequence_numbers t
    = nth_sequence_number <$> seq 0 (length (sent_sequence_numbers t)) /\
  concat (recordings t) = sent_sequence_numbers t /\
  recordings t = consecutive_runs 0 (length <$> recordings t) /\
  (Z.of_nat (length (sent_sequence_numbers t)) <= INT_MAX + 1 ->
   sent_sequence_numbers t = from_zero (length (sent_sequence_numbers t))).
Proof.
  cbv zeta.
  destruct (controller_invariant_run device_config events power_on
              controller_invariant_power_on) as (_ & _ & Hsent & Hcat).
  split; [exact Hsent |]. split; [exact Hcat |]. split.
  - apply runs_of_concat. rewrite Hcat. exact Hsent.
  - intros Hfew. rewrite Hsent at 1. unfold from_zero.
    apply list_fmap_ext. intros i k Hk.
    apply lookup_seq in Hk as [-> Hi].
    apply nth_sequence_number_small. lia.
Qed.

Lemma sequence_numbers_run_on_across_recordings_witness :
  sent_sequence_numbers (trace (run initial_default_config two_recordings power_on))
    = from_zero
        (length (sent_sequence_numbers
                   (trace (run initial_default_config two_recordings power_on)))).
Proof.
  destruct (sequence_numbers_run_on_across_recordings initial_default_config
              two_recordings) as (_ & _ & _ & H).
  apply H. vm_compute. discriminate.
Defined.

(** ** The Base64 encoder (utils.c) *)

(** Induction three octets at a time, the way the encoder reads its input. *)
Lemma by_triples (P : list byte -> Prop) :
  P [] ->
  (forall a, P [a]) ->
  (forall a b, P [a; b]) ->
  (forall a b c rest, P rest -> P (a :: b :: c :: rest)) ->
  forall input, P input.
Proof.
  intros H0 H1 H2 H3 input.
  enough (H : P input /\ (forall a, P (a :: input)) /\ (forall a b, P (a :: b :: input)))
    by apply H.
  induction input as [| c rest (IH0 & IH1 & IH2)].
  - repeat split; auto.
  - repeat split; auto.
Qed.

Lemma quads_length (input : list byte) :
  Z.of_nat (length (quads input)) = 4 * ((Z.of_nat (length input) + 2) / 3).
Proof.
  induction input as [| a | a b | a b c rest IH] using by_triples; try reflexivity.
  cbn [quads quad length app]. cbn [length] in *.
  rewrite !Nat2Z.inj_succ. Z.div_mod_to_equations. lia.
Qed.

Lemma table_at_alphabet (index : Z) : 0 <= index < 64 -> table_at index ∈ alphabet.
Proof.
  intros H. unfold table_at.
  destruct (list_ascii_of_string base64_table !! Z.to_nat index) as [c |] eqn:E.
  - apply list_elem_of_lookup. exists (Z.to_nat index). exact E.
  - apply lookup_ge_None in E. cbn in E. lia.
Qed.

Lemma sextet_range (triple shift : Z) : 0 <= Z.land (Z.shiftr triple shift) 63 < 64.
Proof.
  change 63 with (Z.ones 6). rewrite Z.land_ones by lia.
  apply Z.mod_pos_bound. lia.
Qed.

Lemma quad_alphabet (a b c : Z) : Forall (fun ch => ch ∈ alphabet) (quad a b c).
Proof.
  unfold quad.
  repeat (apply Forall_cons; split; [apply table_at_alphabet, sextet_range |]).
  apply Forall_nil; exact I.
Qed.

Lemma quads_alphabet (input : list byte) : Forall (fun ch => ch ∈ alphabet) (quads input).
Proof.
  induction input as [| a | a b | a b c rest IH] using by_triples;
    cbn [quads]; try apply quad_alphabet; [constructor |].
  apply Forall_app. split; [apply quad_alphabet | exact IH].
Qed.

(** [input\[i++\]] reads the head of what is left of the input. *)
Lemma next_octet_drop (input : list byte) (i : nat) :
  next_octet input (length input) i
    = match drop i input with
      | [] => (0, i)
      | a :: _ => (byte_value a, S i)
      end.
Proof.
  unfold next_octet, octet.
  destruct (Nat.ltb_spec i (length input)) as [Hlt | Hge].
  - destruct (lookup_lt_is_Some_2 input i Hlt) as [a Ha].
    rewrite Ha, (drop_S _ _ _ Ha). reflexivity.
  - now rewrite drop_ge.
Qed.

Lemma drop_tail {A} (input : list A) (i : nat) (a : A) (rest : list A) :
  drop i input = a :: rest -> drop (S i) input = rest.
Proof.
  intros H. replace (S i) with (i + 1)%nat by lia.
  now rewrite <- drop_drop, H.
Qed.

(** The four stores of one iteration, on a buffer split at the write index. *)
Lemma write_quad (pre : list ascii) (m0 m1 m2 m3 q0 q1 q2 q3 : ascii) (tl : list ascii) :
  <[S (S (S (length pre))) := q3]>
    (<[S (S (length pre)) := q2]>
       (<[S (length pre) := q1]>
          (<[length pre := q0]> (pre ++ m0 :: m1 :: m2 :: m3 :: tl))))
  = (pre ++ [q0; q1; q2; q3]) ++ tl.
Proof.
  induction pre as [| p pre IH]; [reflexivity |].
  cbn. f_equal. exact IH.
Qed.

(** The first loop writes [quads] of the input it has not consumed yet over
    the buffer, from index [j] on, and nothing else. *)
Lemma encode_loop_spec (fuel : nat) :
  forall (input : list byte) (i j : nat) (pre mid post : list ascii),
    (length input - i <= fuel)%nat ->
    j = length pre ->
    length mid = length (quads (drop i input)) ->
    encode_loop fuel input (length input) i j (pre ++ mid ++ post)
      = pre ++ quads (drop i input) ++ post.
Proof.
  induction fuel as [| fuel IH]; intros input i j pre mid post Hfuel Hj Hmid.
  - rewrite drop_ge in * by lia. cbn in *.
    destruct mid; [reflexivity | discriminate].
  - cbn [encode_loop].
    destruct (Nat.ltb_spec i (length input)) as [Hlt | Hge].
    2: { rewrite drop_ge in * by lia. cbn in *.
         destruct mid; [reflexivity | discriminate]. }
    rewrite (next_octet_drop input i).
    destruct (drop i input) as [| a r1] eqn:E1.
    { apply (f_equal length) in E1. rewrite length_drop in E1. cbn in E1. lia. }
    pose proof (drop_tail _ _ _ _ E1) as E2.
    rewrite (next_octet_drop input (S i)), E2.
    destruct r1 as [| b r2].
    + (* one octet left *)
      rewrite (next_octet_drop input (S i)), E2.
      cbn [quads quad length] in Hmid.
      destruct mid as [| m0 [| m1 [| m2 [| m3 [| m4 mid]]]]]; try discriminate Hmid.
      subst j. cbn [app]. rewrite write_quad.
      rewrite (IH input (S i) _ (pre ++ _) [] post); rewrite ?E2; try reflexivity.
      * cbn [quads quad app]. unfold byte_value. now rewrite <- app_assoc.
      * lia.
      * rewrite length_app. cbn. lia.
    + pose proof (drop_tail _ _ _ _ E2) as E3.
      rewrite (next_octet_drop input (S (S i))), E3.
      destruct r2 as [| c r3].
      * (* two octets left *)
        cbn [quads quad length] in Hmid.
        destruct mid as [| m0 [| m1 [| m2 [| m3 [| m4 mid]]]]]; try discriminate Hmid.
        subst j. cbn [app]. rewrite write_quad.
        rewrite (IH input (S (S i)) _ (pre ++ _) [] post); rewrite ?E3; try reflexivity.
        -- cbn [quads quad app]. now rewrite <- app_assoc.
        -- lia.
        -- rewrite length_app. cbn. lia.
      * (* a full group *)
        pose proof (drop_tail _ _ _ _ E3) as E4.
        cbn [quads quad length app] in Hmid.
        destruct mid as [| m0 [| m1 [| m2 [| m3 mid]]]]; try discriminate Hmid.
        subst j. cbn [app]. rewrite write_quad.
        rewrite (IH input (S (S (S i))) _ (pre ++ _) mid post); rewrite ?E4.
        -- cbn [quads quad app]. now rewrite <- app_assoc.
        -- lia.
        -- rewrite length_app. cbn. lia.
        -- cbn in Hmid. lia.
Qed.

Lemma overwrite_last (body : list ascii) (x ch : ascii) (tail : list ascii) :
  <[length body := ch]> (body ++ x :: tail) = body ++ ch :: tail.
Proof. induction body as [| p body IH]; [reflexivity |]. cbn. now f_equal. Qed.

Lemma overwrite_last_two (body : list ascii) (x y ch : ascii) (tail : list ascii) :
  <[length body := ch]> (<[S (length body) := ch]> (body ++ x :: y :: tail))
    = body ++ ch :: ch :: tail.
Proof. induction body as [| p body IH]; [reflexivity |]. cbn. now f_equal. Qed.

Lemma padding_cases (n : nat) :
  ((n mod 3 = 0)%nat /\ padding n = 0%nat /\ Z.of_nat n mod 3 = 0) \/
  ((n mod 3 = 1)%nat /\ padding n = 2%nat /\ Z.of_nat n mod 3 = 1) \/
  ((n mod 3 = 2)%nat /\ padding n = 1%nat /\ Z.of_nat n mod 3 = 2).
Proof.
  unfold padding. pose proof (Nat.mod_upper_bound n 3) as Hlt.
  destruct (n mod 3)%nat as [| [| [| k]]] eqn:E; [left | right; left | right; right | lia];
    repeat split; try reflexivity; apply Nat2Z.inj_iff in E;
    rewrite Nat2Z.inj_mod in E; exact E.
Qed.

(** The second loop replaces the last [padding n] characters of the text by
    ['=']. *)
Lemma pad_loop_spec (n : nat) (text tail : list ascii) :
  (0 < n)%nat ->
  4 * ((Z.of_nat n + 2) / 3) < UINT32_MOD ->
  Z.of_nat (length text) = 4 * ((Z.of_nat n + 2) / 3) ->
  pad_loop (Z.of_nat n) (4 * ((Z.of_nat n + 2) / 3)) (text ++ tail)
    = take (length text - padding n) text ++ replicate (padding n) "="%char ++ tail.
Proof.
  intros Hn Hwrap Hlen. unfold pad_loop. rewrite <- Hlen in *.
  assert (Hfour : (4 <= length text)%nat) by (Z.div_mod_to_equations; lia).
  destruct (padding_cases n) as [(_ & -> & ->) | [(_ & -> & ->) | (_ & -> & ->)]].
  - change (Z.to_nat (wrap_u32 (3 - 0) mod 3)) with 0%nat. cbn.
    now rewrite Nat.sub_0_r, take_ge by lia.
  - change (Z.to_nat (wrap_u32 (3 - 1) mod 3)) with 2%nat. cbn [seq foldl replicate].
    rewrite !wrap_u32_small by (unfold UINT32_MOD in *; lia).
    rewrite <- (take_drop (length text - 2) text) at 3.
    destruct (drop (length text - 2) text) as [| x [| y [| z l]]] eqn:E;
      apply (f_equal length) in E; rewrite length_drop in E; cbn in E; try lia.
    rewrite <- app_assoc. cbn [app].
    replace (Z.to_nat (Z.of_nat (length text) - 1 - Z.of_nat 0))
      with (S (length (take (length text - 2) text))) by (rewrite length_take; lia).
    replace (Z.to_nat (Z.of_nat (length text) - 1 - Z.of_nat 1))
      with (length (take (length text - 2) text)) by (rewrite length_take; lia).
    apply overwrite_last_two.
  - change (Z.to_nat (wrap_u32 (3 - 2) mod 3)) with 1%nat. cbn [seq foldl replicate].
    rewrite !wrap_u32_small by (unfold UINT32_MOD in *; lia).
    rewrite <- (take_drop (length text - 1) text) at 2.
    destruct (drop (length text - 1) text) as [| x [| y l]] eqn:E;
      apply (f_equal length) in E; rewrite length_drop in E; cbn in E; try lia.
    rewrite <- app_assoc. cbn [app].
    replace (Z.to_nat (Z.of_nat (length text) - 1 - Z.of_nat 0))
      with (length (take (length text - 1) text)) by (rewrite length_take; lia).
    apply overwrite_last.
Qed.

Lemma alphabet_not_NUL (ch : ascii) : ch ∈ alphabet -> ch <> NUL.
Proof.
  intros H ->. apply list_elem_of_In in H. cbn in H.
  repeat (destruct H as [H | H]; [discriminate H |]). exact H.
Qed.

Lemma c_str_terminated (text rest : list ascii) :
  Forall (fun ch => ch <> NUL) text ->
  c_str (text ++ NUL :: rest) = string_of_list_ascii text.
Proof.
  induction 1 as [| ch text Hch _ IH]; [reflexivity |].
  cbn. apply Ascii.eqb_neq in Hch. rewrite Hch. now f_equal.
Qed.

Lemma encoded_text_length (input : list byte) :
  input <> [] ->
  Z.of_nat (length (encoded_text input)) = 4 * ((Z.of_nat (length input) + 2) / 3).
Proof.
  intros Hne. unfold encoded_text.
  rewrite length_app, length_replicate, length_take.
  pose proof (quads_length input) as Hq.
  assert (0 < length input)%nat by (destruct input; [congruence | cbn; lia]).
  destruct (padding_cases (length input)) as [(_ & -> & _) | [(_ & -> & _) | (_ & -> & _)]];
    Z.div_mod_to_equations; lia.
Qed.

Lemma encoded_text_not_NUL (input : list byte) :
  Forall (fun ch => ch <> NUL) (encoded_text input).
Proof.
  unfold encoded_text. apply Forall_app. split.
  - apply Forall_take. eapply Forall_impl; [apply quads_alphabet |].
    intros ch. apply alphabet_not_NUL.
  - apply Forall_replicate. discriminate.
Qed.

Lemma ceil_div_3 (n : Z) : (n + 2) / 3 = ceil_div n 3.
Proof. unfold ceil_div. Z.div_mod_to_equations. lia. Qed.

(** [base64_encode] on a text of at least one octet, with room for the
    encoding and its terminator. *)
Lemma base64_encode_nonempty (input : list byte) (output : list ascii) (output_len : Z) :
  input <> [] ->
  4 * ((Z.of_nat (length input) + 2) / 3) <= INT_MAX ->
  4 * ((Z.of_nat (length input) + 2) / 3) < output_len <= Z.of_nat (length output) ->
  base64_encode (Some input) (Z.of_nat (length input)) (Some output) output_len
    = (4 * ((Z.of_nat (length input) + 2) / 3),
       Some (encoded_text input
             ++ NUL :: drop (S (length (encoded_text input))) output)).
Proof.
  intros Hne Hint Hroom.
  pose proof (encoded_text_length input Hne) as Htext.
  pose proof (quads_length input) as Hquads.
  assert (Hn : (0 < length input)%nat) by (destruct input; [congruence | cbn; lia]).
  set (e := 4 * ((Z.of_nat (length input) + 2) / 3)) in *.
  assert (He : 4 <= e) by (subst e; Z.div_mod_to_equations; lia).
  unfold INT_MAX in Hint.
  unfold base64_encode.
  destruct (Z.eqb_spec (Z.of_nat (length input)) 0) as [H0 | _]; [lia |].
  rewrite (wrap_u32_small (Z.of_nat (length input) + 2))
    by (unfold UINT32_MOD; subst e; Z.div_mod_to_equations; lia).
  fold e. rewrite (wrap_u32_small e), (wrap_u32_small (e + 1)) by (unfold UINT32_MOD; lia).
  destruct (Z.ltb_spec output_len (e + 1)) as [Hlt | _]; [lia |].
  rewrite Nat2Z.id, (wrap_int_small e) by (unfold INT_MIN, INT_MAX; lia).
  f_equal. f_equal.
  rewrite <- (take_drop (length (quads input)) output) at 1.
  pose proof (encode_loop_spec (length input) input 0 0 []
                (take (length (quads input)) output)
                (drop (length (quads input)) output)) as Hloop.
  rewrite drop_0 in Hloop. cbn [app] in Hloop.
  rewrite Hloop; [| lia | reflexivity | rewrite length_take; lia].
  clear Hloop.
  rewrite (pad_loop_spec (length input) (quads input) _ Hn);
    [| unfold UINT32_MOD; fold e; lia | exact Hquads].
  rewrite app_assoc. fold (encoded_text input).
  replace (Z.to_nat e) with (length (encoded_text input)) by lia.
  destruct (drop (length (quads input)) output) as [| x tail] eqn:E.
  { apply (f_equal length) in E. rewrite length_drop in E. cbn in E. lia. }
  rewrite overwrite_last. f_equal. f_equal.
  replace (length (encoded_text input)) with (length (quads input)) by lia.
  symmetry. eapply drop_tail. exact E.
Qed.

(** C4, as the claim states it, fails for the empty text: [base64_encode]
    does not return the length 0 and does not write the empty string; it
    returns [ARUNIKA_ERROR_INVALID_PARAM] and leaves the buffer alone. *)
Lemma base64_encode_rejects_empty_input :
  ~ ((base64_encode (Some []) 0 (Some (buffer_of 8)) 8).1 = 4 * ceil_div 0 3 /\
     c_str <$> (base64_encode (Some []) 0 (Some (buffer_of 8)) 8).2 = Some EmptyString).
Proof. intros [H _]. vm_compute in H. discriminate H. Qed.

(** C4, amended.  For every byte sequence [x] of at least one octet whose
    encoding fits an [int], given an output buffer with room for the encoding
    and its terminator, [base64_encode] returns [4·⌈|x|/3⌉] and leaves in the
    buffer a NUL-terminated string of exactly that length (so divisible by 4):
    characters of the table [A-Z a-z 0-9 + /] followed by [(3 - |x| mod 3) mod
    3] characters ['=']; "f" gives "Zg==", "fo" gives "Zm8=" and "foo" gives
    "Zm9v".  For the empty sequence it returns [ARUNIKA_ERROR_INVALID_PARAM]
    and writes nothing. *)
Theorem base64_encode_text :
  (forall (input : list byte) (output : list ascii) (output_len : Z),
     input <> [] ->
     4 * ceil_div (Z.of_nat (length input)) 3 <= INT_MAX ->
     4 * ceil_div (Z.of_nat (length input)) 3 < output_len <= Z.of_nat (length output) ->
     exists text rest,
       base64_encode (Some input) (Z.of_nat (length input)) (Some output) output_len
         = (4 * ceil_div (Z.of_nat (length input)) 3, Some (text ++ NUL :: rest)) /\
       c_str (text ++ NUL :: rest) = string_of_list_ascii text /\
       Z.of_nat (length text) = 4 * ceil_div (Z.of_nat (length input)) 3 /\
       (4 | Z.of_nat (length text)) /\
       Forall (fun ch => ch ∈ alphabet)
         (take (length text - padding (length input)) text) /\
       drop (length text - padding (length input)) text
         = replicate (padding (length input)) "="%char) /\
  (forall (output : list ascii) (output_len : Z),
     base64_encode (Some []) 0 (Some output) output_len
       = (ARUNIKA_ERROR_INVALID_PARAM, Some output)) /\
  base64_encode (Some (list_byte_of_string "f")) 1 (Some (buffer_of 8)) 8
    = (4, Some (list_ascii_of_string "Zg==" ++ NUL :: buffer_of 3)) /\
  base64_encode (Some (list_byte_of_string "fo")) 2 (Some (buffer_of 8)) 8
    = (4, Some (list_ascii_of_string "Zm8=" ++ NUL :: buffer_of 3)) /\
  base64_encode (Some (list_byte_of_string "foo")) 3 (Some (buffer_of 8)) 8
    = (4, Some (list_ascii_of_string "Zm9v" ++ NUL :: buffer_of 3)).
Proof.
  split; [| repeat split].
  intros input output output_len Hne Hint Hroom.
  rewrite <- ceil_div_3 in *.
  pose proof (encoded_text_length input Hne) as Hlen.
  exists (encoded_text input), (drop (S (length (encoded_text input))) output).
  split; [now apply base64_encode_nonempty |].
  split; [apply c_str_terminated, encoded_text_not_NUL |].
  split; [exact Hlen |].
  split; [rewrite Hlen; apply Z.divide_factor_l |].
  assert (Hq : (length (encoded_text input) - padding (length input)
                = length (take (length (quads input) - padding (length input))
                            (quads input)))%nat).
  { pose proof (quads_length input) as Hquads. rewrite length_take. lia. }
  unfold encoded_text at 2 4. rewrite Hq, take_app_length, drop_app_length.
  split; [| reflexivity].
  apply Forall_take, quads_alphabet.
Qed.

Lemma base64_encode_text_witness :
  exists text rest,
    base64_encode (Some (list_byte_of_string "Hello World")) 11
      (Some (buffer_of 256)) 256
      = (16, Some (text ++ NUL :: rest)) /\
    c_str (text ++ NUL :: rest) = string_of_list_ascii text.
Proof.
  destruct base64_encode_text as (H & _).
  destruct (H (list_byte_of_string "Hello World") (buffer_of 256) 256)
    as (text & rest & Henc & Hstr & _).
  - discriminate.
  - vm_compute. discriminate.
  - split; [reflexivity | vm_compute; discriminate].
  - exists text, rest. split; [exact Henc | exact Hstr].
Defined.

(** ** The Base64 decoder (utils.c) *)

(** C3 at the one-octet text "f": [base64_encode] writes "Zg==" and
    returns 4, and [base64_decode] of "Zg==" returns [ARUNIKA_ERROR_INIT]
    without writing the octet back; it does so for every text and buffer. *)
Theorem base64_decode_does_not_invert_encode :
  base64_encode (Some [x66]) 1 (Some (buffer_of 8)) 8
    = (4, Some (list_ascii_of_string "Zg==" ++ NUL :: buffer_of 3)) /\
  base64_decode (Some "Zg=="%string) (Some [x00; x00; x00]) 3
    = (ARUNIKA_ERROR_INIT, Some [x00; x00; x00]) /\
  forall (text : string) (output : list byte) (output_len : Z),
    base64_decode (Some text) (Some output) output_len
      = (ARUNIKA_ERROR_INIT, Some output).
Proof. repeat split. Qed.

(** * Further properties *)

(** ** The Base64 encoder: refusals and bounds (utils.c) *)

Lemma encodable_nonempty (input : list byte) (output : list ascii) (output_len : Z) :
  encodable input output output_len ->
  base64_encode (Some input) (Z.of_nat (length input)) (Some output) output_len
    = (4 * ceil_div (Z.of_nat (length input)) 3,
       Some (encoded_text input
             ++ NUL :: drop (S (length (encoded_text input))) output)).
Proof.
  intros (Hne & Hint & Hroom). rewrite <- ceil_div_3 in *.
  now apply base64_encode_nonempty.
Qed.

Lemma encodable_length (input : list byte) (output : list ascii) (output_len : Z) :
  encodable input output output_len ->
  Z.of_nat (length (encoded_text input)) = 4 * ceil_div (Z.of_nat (length input)) 3 /\
  (length (encoded_text input) < length output)%nat.
Proof.
  intros (Hne & Hint & Hroom).
  pose proof (encoded_text_length input Hne) as H. rewrite ceil_div_3 in H.
  split; [exact H | lia].
Qed.

Lemma encoded_string_text (input : list byte) (output : list ascii) (output_len : Z) :
  encodable input output output_len ->
  encoded_string input output output_len
    = Some (string_of_list_ascii (encoded_text input)).
Proof.
  intros H. unfold encoded_string, encoded_buffer.
  rewrite (encodable_nonempty _ _ _ H). cbn.
  now rewrite c_str_terminated by apply encoded_text_not_NUL.
Qed.

(** X1.  [base64_encode] refuses a null [input], a null [output] and a zero
    [input_len] with [ARUNIKA_ERROR_INVALID_PARAM], and a buffer that cannot
    hold the encoding and its terminator with [ARUNIKA_ERROR_MEMORY]; in both
    cases the output buffer is handed back as it was. *)
Theorem base64_encode_refusals (input : option (list byte)) (input_len : Z)
    (output : option (list ascii)) (output_len : Z) :
  0 <= input_len ->
  4 * ceil_div input_len 3 <= INT_MAX ->
  (input = None \/ output = None \/ input_len = 0 ->
   base64_encode input input_len output output_len
     = (ARUNIKA_ERROR_INVALID_PARAM, output)) /\
  (is_Some input -> is_Some output -> 0 < input_len ->
   output_len <= 4 * ceil_div input_len 3 ->
   base64_encode input input_len output output_len = (ARUNIKA_ERROR_MEMORY, output)).
Proof.
  intros Hlen Hint. rewrite <- ceil_div_3 in *. unfold INT_MAX in Hint. split.
  - intros [-> | [-> | ->]]; [reflexivity | now destruct input |].
    now destruct input, output.
  - intros [i ->] [o ->] Hpos Hsmall. unfold base64_encode. cbv zeta.
    destruct (Z.eqb_spec input_len 0) as [H0 | _]; [lia |].
    rewrite (wrap_u32_small (input_len + 2))
      by (unfold UINT32_MOD; Z.div_mod_to_equations; lia).
    rewrite (wrap_u32_small (4 * ((input_len + 2) / 3)))
      by (unfold UINT32_MOD; Z.div_mod_to_equations; lia).
    rewrite (wrap_u32_small (4 * ((input_len + 2) / 3) + 1))
      by (unfold UINT32_MOD; Z.div_mod_to_equations; lia).
    destruct (Z.ltb_spec output_len (4 * ((input_len + 2) / 3) + 1)) as [_ | Hge];
      [reflexivity | lia].
Qed.

Lemma base64_encode_refusals_witness :
  base64_encode (Some (list_byte_of_string "foob")) 4 (Some (buffer_of 8)) 8
    = (ARUNIKA_ERROR_MEMORY, Some (buffer_of 8)) /\
  base64_encode None 4 (Some (buffer_of 8)) 8
    = (ARUNIKA_ERROR_INVALID_PARAM, Some (buffer_of 8)).
Proof.
  assert (H0 : 0 <= 4) by lia.
  assert (H1 : 4 * ceil_div 4 3 <= INT_MAX) by (vm_compute; discriminate).
  split.
  - destruct (base64_encode_refusals (Some (list_byte_of_string "foob")) 4
                (Some (buffer_of 8)) 8 H0 H1) as [_ H].
    apply H; [eexists; reflexivity | eexists; reflexivity | lia | vm_compute; discriminate].
  - destruct (base64_encode_refusals None 4 (Some (buffer_of 8)) 8 H0 H1) as [H _].
    apply H. left; reflexivity.
Defined.

(** X2.  On an encodable input [base64_encode] writes the encoding and one
    NUL and nothing else: the buffer keeps its length, holds NUL at index
    [4·⌈n/3⌉] and is unchanged at every index above it. *)
Theorem base64_encode_stays_in_bounds (input : list byte) (output : list ascii)
    (output_len : Z) :
  encodable input output output_len ->
  exists buffer,
    encoded_buffer input output output_len = Some buffer /\
    length buffer = length output /\
    buffer !! Z.to_nat (4 * ceil_div (Z.of_nat (length input)) 3) = Some NUL /\
    forall i : nat,
      4 * ceil_div (Z.of_nat (length input)) 3 < Z.of_nat i ->
      buffer !! i = output !! i.
Proof.
  intros H. destruct (encodable_length _ _ _ H) as [Hlen Hlt].
  unfold encoded_buffer. rewrite (encodable_nonempty _ _ _ H). cbn [snd].
  eexists. split; [reflexivity |].
  rewrite <- Hlen, Nat2Z.id. split; [| split].
  - rewrite length_app. cbn [length]. rewrite length_drop. lia.
  - apply list_lookup_middle. reflexivity.
  - intros i Hi.
    rewrite lookup_app_r by lia.
    rewrite lookup_cons_ne_0 by lia. rewrite lookup_drop. f_equal. lia.
Qed.

Lemma base64_encode_stays_in_bounds_witness :
  exists buffer,
    encoded_buffer (list_byte_of_string "Hello World") (buffer_of 256) 256 = Some buffer /\
    length buffer = 256%nat.
Proof.
  destruct (base64_encode_stays_in_bounds (list_byte_of_string "Hello World")
              (buffer_of 256) 256) as (buffer & Hb & Hl & _).
  - split; [discriminate |].
    split; [vm_compute; discriminate |].
    split; [reflexivity | vm_compute; discriminate].
  - exists buffer. split; [exact Hb | exact Hl].
Defined.

(** ** The Base64 encoder keeps its input (utils.c) *)

Lemma byte_value_range (b : byte) : 0 <= byte_value b < 256.
Proof. unfold byte_value. pose proof (Byte.to_N_bounded b). lia. Qed.

Lemma byte_value_inj (a b : byte) : byte_value a = byte_value b -> a = b.
Proof.
  unfold byte_value. intros H. apply N2Z.inj in H.
  pose proof (Byte.of_to_N a) as Ha. rewrite H, Byte.of_to_N in Ha. congruence.
Qed.

Lemma byte_values_inj (x y : list byte) : byte_value <$> x = byte_value <$> y -> x = y.
Proof.
  revert y. induction x as [| a x IH]; intros [| b y] H; try discriminate H; [reflexivity |].
  cbn in H. injection H as Hab Hxy. f_equal; [now apply byte_value_inj | now apply IH].
Qed.

(** The four characters of a group, with the shifts and masks read as
    quotients and remainders. *)
Lemma quad_sextets (a b c : Z) :
  0 <= a < 256 -> 0 <= b < 256 -> 0 <= c < 256 ->
  quad a b c
    = [ table_at ((a * 65536 + b * 256 + c) / 2 ^ 18 mod 64);
        table_at ((a * 65536 + b * 256 + c) / 2 ^ 12 mod 64);
        table_at ((a * 65536 + b * 256 + c) / 2 ^ 6 mod 64);
        table_at ((a * 65536 + b * 256 + c) mod 64) ].
Proof.
  intros Ha Hb Hc. unfold quad. cbv zeta.
  rewrite !Z.shiftl_mul_pow2 by lia.
  change (2 ^ 16) with 65536. change (2 ^ 8) with 256.
  rewrite wrap_u32_small by (unfold UINT32_MOD; lia).
  change 63 with (Z.ones 6). rewrite !Z.land_ones by lia.
  rewrite !Z.shiftr_div_pow2 by lia.
  change (3 * 6) with 18. change (2 * 6) with 12. change (1 * 6) with 6.
  change (0 * 6) with 0. change (2 ^ 0) with 1. rewrite Z.div_1_r.
  reflexivity.
Qed.

Lemma sextet_of_table_at (s : Z) : 0 <= s < 64 -> sextet_of (table_at s) = s.
Proof.
  intros Hs.
  assert (Hall : forallb (fun n => sextet_of (table_at (Z.of_nat n)) =? Z.of_nat n)
                   (seq 0 64) = true) by (vm_compute; reflexivity).
  rewrite forallb_forall in Hall.
  specialize (Hall (Z.to_nat s)). rewrite Z2Nat.id in Hall by lia.
  apply Z.eqb_eq, Hall, in_seq. lia.
Qed.

Lemma alphabet_not_pad (ch : ascii) : ch ∈ alphabet -> Ascii.eqb ch "="%char = false.
Proof.
  intros H. apply Ascii.eqb_neq. intros ->.
  apply list_elem_of_In in H. cbn in H.
  repeat (destruct H as [H | H]; [discriminate H |]). exact H.
Qed.

Lemma table_at_not_pad (s : Z) : 0 <= s < 64 -> Ascii.eqb (table_at s) "="%char = false.
Proof. intros Hs. now apply alphabet_not_pad, table_at_alphabet. Qed.

Lemma sextet_bound (t d : Z) : 0 <= (t / d) mod 64 < 64.
Proof. apply Z.mod_pos_bound. lia. Qed.

Lemma sextet_bound0 (t : Z) : 0 <= t mod 64 < 64.
Proof. apply Z.mod_pos_bound. lia. Qed.

(** Reading back a full group, a group of two octets and a group of one. *)
Lemma octets_of_full_group (a b c : Z) (rest : list ascii) :
  0 <= a < 256 -> 0 <= b < 256 -> 0 <= c < 256 ->
  octets_of_text (quad a b c ++ rest) = a :: b :: c :: octets_of_text rest.
Proof.
  intros Ha Hb Hc. rewrite quad_sextets by assumption. cbn [app octets_of_text].
  rewrite !sextet_of_table_at by (apply sextet_bound || apply sextet_bound0).
  rewrite !table_at_not_pad by (apply sextet_bound || apply sextet_bound0).
  set (t := a * 65536 + b * 256 + c).
  assert (Ht : 0 <= t < 2 ^ 24) by (subst t; lia).
  assert (E : t / 2 ^ 18 mod 64 * 2 ^ 18 + t / 2 ^ 12 mod 64 * 2 ^ 12
              + t / 2 ^ 6 mod 64 * 2 ^ 6 + t mod 64 = t)
    by (Z.div_mod_to_equations; lia).
  rewrite E. f_equal; [| f_equal; [| f_equal]]; subst t; Z.div_mod_to_equations; lia.
Qed.

Lemma octets_of_two (a b : Z) :
  0 <= a < 256 -> 0 <= b < 256 ->
  octets_of_text (take 3 (quad a b 0) ++ ["="%char]) = [a; b].
Proof.
  intros Ha Hb. rewrite quad_sextets by (assumption || lia). cbn [take firstn app octets_of_text].
  rewrite !sextet_of_table_at by (apply sextet_bound || apply sextet_bound0).
  rewrite !table_at_not_pad by (apply sextet_bound || apply sextet_bound0).
  change (Ascii.eqb "=" "=") with true. cbv iota.
  change (sextet_of "=") with 0.
  set (t := a * 65536 + b * 256 + 0).
  f_equal; [| f_equal]; subst t; Z.div_mod_to_equations; lia.
Qed.

Lemma octets_of_one (a : Z) :
  0 <= a < 256 ->
  octets_of_text (take 2 (quad a 0 0) ++ ["="%char; "="%char]) = [a].
Proof.
  intros Ha. rewrite quad_sextets by (assumption || lia). cbn [take firstn app octets_of_text].
  rewrite !sextet_of_table_at by (apply sextet_bound || apply sextet_bound0).
  change (Ascii.eqb "=" "=") with true. cbv iota.
  change (sextet_of "=") with 0.
  f_equal. Z.div_mod_to_equations. lia.
Qed.

Lemma padding_le_quads (input : list byte) :
  (padding (length input) <= length (quads input))%nat.
Proof.
  pose proof (quads_length input) as Hq.
  destruct input as [| a input].
  - cbn. unfold padding. cbn. lia.
  - cbn [length] in *.
    destruct (padding_cases (S (length input))) as [(_ & -> & _) | [(_ & -> & _) | (_ & -> & _)]];
      Z.div_mod_to_equations; lia.
Qed.

(** The text of an input is the quad of its first three octets followed by
    the text of the rest. *)
Lemma encoded_text_group (a b c : byte) (rest : list byte) :
  encoded_text (a :: b :: c :: rest)
    = quad (byte_value a) (byte_value b) (byte_value c) ++ encoded_text rest.
Proof.
  unfold encoded_text. cbn [quads length].
  assert (Hp : padding (S (S (S (length rest)))) = padding (length rest)).
  { unfold padding. replace (S (S (S (length rest)))) with (length rest + 1 * 3)%nat by lia.
    now rewrite Nat.Div0.mod_add. }
  rewrite Hp, length_app. pose proof (padding_le_quads rest) as Hle.
  set (q := quad (byte_value a) (byte_value b) (byte_value c)).
  replace (length q + length (quads rest) - padding (length rest))%nat
    with (length q + (length (quads rest) - padding (length rest)))%nat by lia.
  now rewrite take_app_add, <- app_assoc.
Qed.

(** Reading the text of an input gives the input back, octet by octet. *)
Lemma octets_of_encoded_text (input : list byte) :
  octets_of_text (encoded_text input) = byte_value <$> input.
Proof.
  induction input as [| a | a b | a b c rest IH] using by_triples.
  - reflexivity.
  - apply (octets_of_one (byte_value a)), byte_value_range.
  - apply (octets_of_two (byte_value a) (byte_value b)); apply byte_value_range.
  - rewrite encoded_text_group, octets_of_full_group by apply byte_value_range.
    cbn. now rewrite IH.
Qed.

Lemma encoded_text_inj (x y : list byte) : encoded_text x = encoded_text y -> x = y.
Proof.
  intros H. apply byte_values_inj.
  now rewrite <- !octets_of_encoded_text, H.
Qed.

Lemma string_of_list_ascii_inj (s t : list ascii) :
  string_of_list_ascii s = string_of_list_ascii t -> s = t.
Proof.
  intros H. apply (f_equal list_ascii_of_string) in H.
  now rewrite !list_ascii_of_string_of_list_ascii in H.
Qed.

(** X3.  [base64_encode] loses nothing: two encodable inputs that leave the
    same string in their output buffers are the same byte sequence. *)
Theorem base64_encode_injective (x y : list byte) (out_x out_y : list ascii)
    (len_x len_y : Z) :
  encodable x out_x len_x ->
  encodable y out_y len_y ->
  encoded_string x out_x len_x = encoded_string y out_y len_y ->
  x = y.
Proof.
  intros Hx Hy H.
  rewrite (encoded_string_text _ _ _ Hx), (encoded_string_text _ _ _ Hy) in H.
  injection H as H. now apply encoded_text_inj, string_of_list_ascii_inj.
Qed.

Lemma base64_encode_injective_witness :
  list_byte_of_string "foo" = list_byte_of_string "foo".
Proof.
  apply (base64_encode_injective _ _ (buffer_of 8) (buffer_of 16) 8 16).
  - split; [discriminate |]. split; [vm_compute; discriminate |].
    split; [reflexivity | vm_compute; discriminate].
  - split; [discriminate |]. split; [vm_compute; discriminate |].
    split; [reflexivity | vm_compute; discriminate].
  - vm_compute. reflexivity.
Defined.

Lemma encoded_text_app (x y : list byte) :
  (length x mod 3 = 0)%nat -> encoded_text (x ++ y) = encoded_text x ++ encoded_text y.
Proof.
  induction x as [| a | a b | a b c rest IH] using by_triples; cbn [length]; intros H.
  - reflexivity.
  - discriminate H.
  - discriminate H.
  - cbn [app]. rewrite !encoded_text_group, <- app_assoc. f_equal. apply IH.
    replace (S (S (S (length rest)))) with (length rest + 1 * 3)%nat in H by lia.
    now rewrite Nat.Div0.mod_add in H.
Qed.

Lemma string_of_list_ascii_app (s t : list ascii) :
  string_of_list_ascii (s ++ t)
    = (string_of_list_ascii s ++ string_of_list_ascii t)%string.
Proof. induction s as [| c s IH]; [reflexivity |]. cbn. now rewrite IH. Qed.

(** X4.  Encoding can be done piecewise on a boundary of three octets: when
    [|x|] is a multiple of 3, the string [base64_encode] gives for [x ++ y]
    is the string it gives for [x] followed by the one it gives for [y]. *)
Theorem base64_encode_by_pieces (x y : list byte) (out_x out_y out : list ascii)
    (len_x len_y len : Z) :
  (length x mod 3 = 0)%nat ->
  encodable x out_x len_x ->
  encodable y out_y len_y ->
  encodable (x ++ y) out len ->
  exists sx sy : string,
    encoded_string x out_x len_x = Some sx /\
    encoded_string y out_y len_y = Some sy /\
    encoded_string (x ++ y) out len = Some (sx ++ sy)%string.
Proof.
  intros Hmod Hx Hy Hxy.
  exists (string_of_list_ascii (encoded_text x)), (string_of_list_ascii (encoded_text y)).
  rewrite (encoded_string_text _ _ _ Hx), (encoded_string_text _ _ _ Hy),
    (encoded_string_text _ _ _ Hxy), (encoded_text_app x y Hmod), string_of_list_ascii_app.
  repeat split.
Qed.

Lemma base64_encode_by_pieces_witness :
  exists sx sy : string,
    encoded_string (list_byte_of_string "foo") (buffer_of 8) 8 = Some sx /\
    encoded_string (list_byte_of_string "ba") (buffer_of 8) 8 = Some sy /\
    encoded_string (list_byte_of_string "fooba") (buffer_of 16) 16 = Some (sx ++ sy)%string.
Proof.
  apply (base64_encode_by_pieces (list_byte_of_string "foo") (list_byte_of_string "ba")).
  - reflexivity.
  - split; [discriminate |]. split; [vm_compute; discriminate |].
    split; [reflexivity | vm_compute; discriminate].
  - split; [discriminate |]. split; [vm_compute; discriminate |].
    split; [reflexivity | vm_compute; discriminate].
  - split; [discriminate |]. split; [vm_compute; discriminate |].
    split; [reflexivity | vm_compute; discriminate].
Defined.

(** ** The battery gauge (power.c) *)

Lemma power_get_battery_level_effect (w : world) :
  power_get_battery_level w
    = if negb (power_initialized (globals w)) then (0, w)
      else if wrap_u32 (wrap_u32 (monotonic_ms w) - last_check (globals w)) >? 10000
      then
        let level :=
          if battery_level (globals w) >? 0
          then wrap_u8 (battery_level (globals w) - 1)
          else battery_level (globals w) in
        (level,
         mk_world
           (set_last_check (wrap_u32 (monotonic_ms w))
              (set_battery_level level (globals w)))
           (monotonic_ms w) (trace w))
      else (battery_level (globals w), w).
Proof.
  destruct_world w.
  cbv [power_get_battery_level bind read write ret get_timestamp_ms].
  cbn -[wrap_u32 wrap_u8 Z.gtb Z.sub]. destruct pi; cbn -[wrap_u32 wrap_u8 Z.gtb Z.sub];
    [| reflexivity].
  destruct (wrap_u32 (wrap_u32 ms - lc) >? 10000); cbn -[wrap_u32 wrap_u8 Z.gtb Z.sub];
    [| reflexivity].
  destruct (bl >? 0); reflexivity.
Qed.

(** X5.  [power_get_battery_level] reports 0 and changes nothing while power
    management is not initialised.  Once it is, the level it reports is the
    stored one after the call; a call lowers the stored level by at most one,
    never below 0, and only when more than 10000 ms (in [uint32_t]
    arithmetic) have passed since the last drop, which it then dates to now;
    nothing but the level and that date changes. *)
Theorem battery_drains_one_step_at_a_time (w : world) :
  0 <= battery_level (globals w) <= 255 ->
  (power_initialized (globals w) = false ->
   power_get_battery_level w = (0, w)) /\
  (power_initialized (globals w) = true ->
   result power_get_battery_level w
     = battery_level (globals (after power_get_battery_level w)) /\
   0 <= result power_get_battery_level w <= battery_level (globals w) /\
   battery_level (globals w) - result power_get_battery_level w <= 1 /\
   (result power_get_battery_level w < battery_level (globals w) ->
    10000 < wrap_u32 (wrap_u32 (monotonic_ms w) - last_check (globals w)) /\
    last_check (globals (after power_get_battery_level w)) = wrap_u32 (monotonic_ms w)) /\
   after power_get_battery_level w
     = mk_world
         (set_last_check (last_check (globals (after power_get_battery_level w)))
            (set_battery_level (battery_level (globals (after power_get_battery_level w)))
               (globals w)))
         (monotonic_ms w) (trace w)).
Proof.
  intros Hb. unfold result, after. rewrite power_get_battery_level_effect.
  split; intros Hp; rewrite Hp; cbn [negb]; [reflexivity |].
  destruct (Z.gtb_spec (wrap_u32 (wrap_u32 (monotonic_ms w) - last_check (globals w))) 10000)
    as [Hlate | Hsoon].
  - cbv zeta. destruct (Z.gtb_spec (battery_level (globals w)) 0) as [Hpos | Hzero].
    + assert (E : wrap_u8 (battery_level (globals w) - 1) = battery_level (globals w) - 1)
        by (unfold wrap_u8; apply Z.mod_small; lia).
      rewrite E. cbn [fst snd globals battery_level last_check set_last_check
                       set_battery_level].
      repeat split; try lia; reflexivity.
    + cbn [fst snd globals battery_level last_check set_last_check set_battery_level].
      repeat split; try lia; reflexivity.
  - cbn [fst snd]. repeat split; try lia. destruct_world w. reflexivity.
Qed.

Lemma battery_drains_one_step_at_a_time_witness :
  result power_get_battery_level
    (after (delay_ms 10001) (after power_init power_on)) = 84.
Proof.
  destruct (battery_drains_one_step_at_a_time
              (after (delay_ms 10001) (after power_init power_on))) as [_ H].
  - vm_compute. split; discriminate.
  - destruct (H eq_refl) as (Hr & _). rewrite Hr. reflexivity.
Defined.

(** ** Any use of the API (arunika.h) *)

Lemma subsystems_consistent_power_on : subsystems_consistent power_on.
Proof. repeat split; try discriminate; cbn; lia. Qed.

Lemma power_get_battery_level_consistent (w : world) :
  subsystems_consistent w -> subsystems_consistent (after power_get_battery_level w).
Proof.
  intros (Ha & Hn & Hb). unfold after. rewrite power_get_battery_level_effect.
  destruct (negb (power_initialized (globals w))); [now repeat split |].
  destruct (wrap_u32 (wrap_u32 (monotonic_ms w) - last_check (globals w)) >? 10000);
    [| now repeat split].
  cbv zeta. destruct (Z.gtb_spec (battery_level (globals w)) 0) as [Hpos | Hzero].
  - assert (E : wrap_u8 (battery_level (globals w) - 1) = battery_level (globals w) - 1)
      by (unfold wrap_u8; apply Z.mod_small; lia).
    rewrite E. repeat split; cbn; try assumption; lia.
  - repeat split; cbn; try assumption; lia.
Qed.

Lemma websocket_receive_message_effect (buffer : option string) (buffer_size : Z)
    (w : world) :
  after (websocket_receive_message buffer buffer_size) w = w /\
  (result (websocket_receive_message buffer buffer_size) w).1 <= 0 /\
  (result (websocket_receive_message buffer buffer_size) w).2 = buffer.
Proof.
  destruct_world w. unfold result, after, websocket_receive_message, bind, read, ret.
  destruct buffer as [b |]; cbn [globals websocket_connected];
    [| repeat split; try reflexivity; cbv; discriminate].
  destruct ((buffer_size =? 0) || negb ws);
    repeat split; try reflexivity; cbv; discriminate.
Qed.

Lemma perform_consistent (c : api_call) (w : world) :
  subsystems_consistent w -> subsystems_consistent (after (perform c) w).
Proof.
  intros H.
  destruct c;
    try (apply (power_get_battery_level_consistent w) in H;
         unfold after, perform, bind in *; destruct (power_get_battery_level w); exact H);
    try (unfold after, perform, device_process_incoming_message, bind;
         destruct (strstr message "ai_response"); destruct_world w; exact H);
    try (destruct (websocket_receive_message_effect buffer buffer_size w) as (E & _);
         unfold after, perform, bind in *;
         destruct (websocket_receive_message buffer buffer_size w); cbn in *;
         subst; exact H);
    unfold subsystems_consistent in *; destruct H as (Ha & Hn & Hb1 & Hb2);
    repeat match goal with x : option _ |- _ => destruct x end;
    try rename ms into duration;
    destruct_world w; cbn in Ha, Hn, Hb1, Hb2;
    try (cbn; repeat split; try assumption; intros; solve [congruence | auto]);
    destruct ai, rec, ni, wc, ws, pi;
    try (cbn; repeat split; try assumption; intros; solve [congruence | auto]);
    destruct st;
    cbn; repeat split; try assumption; intros; solve [congruence | auto].
Qed.

Lemma perform_all_consistent (calls : list api_call) (w : world) :
  subsystems_consistent w -> subsystems_consistent (perform_all calls w).
Proof.
  revert w. induction calls as [| c calls IH]; intros w H; [exact H |].
  cbn [perform_all]. now apply IH, perform_consistent.
Qed.

(** X6.  Whatever sequence of the functions declared in [arunika.h] is
    called from reset, with whatever arguments: capture is running only if
    the audio subsystem is initialised, WiFi is connected only if the network
    subsystem is initialised, the stored battery level is between 0 and 85,
    and so is the level [power_get_battery_level] then reports. *)
Theorem subsystems_stay_consistent (calls : list api_call) :
  subsystems_consistent (perform_all calls power_on) /\
  0 <= result power_get_battery_level (perform_all calls power_on) <= 85.
Proof.
  pose proof (perform_all_consistent calls power_on subsystems_consistent_power_on) as H.
  split; [exact H |].
  destruct H as (_ & _ & Hb). unfold result.
  rewrite power_get_battery_level_effect.
  destruct (negb (power_initialized (globals (perform_all calls power_on))));
    [cbn; lia |].
  destruct (wrap_u32 _ >? 10000); [| cbn [fst]; lia].
  cbv zeta. cbn [fst].
  destruct (Z.gtb_spec (battery_level (globals (perform_all calls power_on))) 0);
    [| lia].
  unfold wrap_u8. rewrite Z.mod_small; lia.
Qed.

(** ** The channel (websocket.c) *)

(** X7.  The life of the channel.  [websocket_connect] with a null [url] or
    [path] fails with [ARUNIKA_ERROR_INVALID_PARAM] and changes nothing; with
    both it succeeds after a 1000 ms sleep and the channel is up.  While the
    channel is up a chunk and a ping are accepted and a receive finds no
    message (0); while it is down a chunk and a receive are refused with
    [ARUNIKA_ERROR_INVALID_PARAM] and a ping with [ARUNIKA_ERROR_WEBSOCKET].
    [websocket_disconnect] always succeeds and leaves the channel down, and on
    a channel that is down it changes nothing. *)
Theorem channel_life (w : world) (url path message : string) (port seq_no : Z)
    (buffer : audio_buffer_t) (buffer_size : Z) :
  buffer_size <> 0 ->
  (forall p, websocket_connect None port p w = (ARUNIKA_ERROR_INVALID_PARAM, w)) /\
  (forall u, websocket_connect u port None w = (ARUNIKA_ERROR_INVALID_PARAM, w)) /\
  (result (websocket_connect (Some url) port (Some path)) w = ARUNIKA_OK /\
   result websocket_is_connected
     (after (websocket_connect (Some url) port (Some path)) w) = true /\
   monotonic_ms (after (websocket_connect (Some url) port (Some path)) w)
     = monotonic_ms w + 1000) /\
  (result websocket_is_connected w = true ->
   result (websocket_send_audio_chunk (Some buffer) seq_no) w = ARUNIKA_OK /\
   result websocket_send_ping w = ARUNIKA_OK /\
   result (websocket_receive_message (Some message) buffer_size) w = (0, Some message)) /\
  (result websocket_is_connected w = false ->
   result (websocket_send_audio_chunk (Some buffer) seq_no) w
     = ARUNIKA_ERROR_INVALID_PARAM /\
   result websocket_send_ping w = ARUNIKA_ERROR_WEBSOCKET /\
   result (websocket_receive_message (Some message) buffer_size) w
     = (ARUNIKA_ERROR_INVALID_PARAM, Some message) /\
   after websocket_disconnect w = w) /\
  result websocket_disconnect w = ARUNIKA_OK /\
  result websocket_is_connected (after websocket_disconnect w) = false.
Proof.
  intros Hsize. apply Z.eqb_neq in Hsize.
  destruct_world w.
  unfold result, after, websocket_receive_message, bind, read, ret.
  cbn [globals websocket_connected]. rewrite Hsize.
  destruct ws; repeat split; try (intros [u |]); try reflexivity; cbn in *; congruence.
Qed.

Lemma channel_life_witness :
  result (websocket_send_audio_chunk (Some indeterminate_buffer) 0) power_on
    = ARUNIKA_ERROR_INVALID_PARAM /\
  result (websocket_send_audio_chunk (Some indeterminate_buffer) 0)
    (after (websocket_connect (Some "wss://api.arunika.com"%string) 443
              (Some "/ws"%string)) power_on)
    = ARUNIKA_OK.
Proof.
  assert (Hsize : 1024 <> 0) by lia.
  split.
  - destruct (channel_life power_on "" "" "" 443 0 indeterminate_buffer 1024 Hsize)
      as (_ & _ & _ & _ & H & _).
    apply H. reflexivity.
  - destruct (channel_life
                (after (websocket_connect (Some "wss://api.arunika.com"%string) 443
                          (Some "/ws"%string)) power_on)
                "" "" "" 443 0 indeterminate_buffer 1024 Hsize)
      as (_ & _ & _ & H & _).
    apply H. reflexivity.
Defined.

(** ** WiFi (network.c) *)

(** X8.  The life of the WiFi link.  [network_connect_wifi] is refused with
    [ARUNIKA_ERROR_INVALID_PARAM], and nothing changes, when the network
    subsystem is not initialised or a pointer is null.  Once
    [network_init] has run, a connect with both strings succeeds after a
    2000 ms sleep and [network_is_connected] is true.
    [network_disconnect_wifi] always succeeds and leaves the link down, and on
    a link that is down it changes nothing. *)
Theorem wifi_life (w : world) (ssid password : string) :
  (network_initialized (globals w) = false ->
   network_connect_wifi (Some ssid) (Some password) w
     = (ARUNIKA_ERROR_INVALID_PARAM, w)) /\
  (forall p, network_connect_wifi None p w = (ARUNIKA_ERROR_INVALID_PARAM, w)) /\
  (forall s, network_connect_wifi s None w = (ARUNIKA_ERROR_INVALID_PARAM, w)) /\
  (result (network_connect_wifi (Some ssid) (Some password)) (after network_init w)
     = ARUNIKA_OK /\
   result network_is_connected
     (after (network_connect_wifi (Some ssid) (Some password)) (after network_init w))
     = true /\
   monotonic_ms
     (after (network_connect_wifi (Some ssid) (Some password)) (after network_init w))
     = monotonic_ms w + 2000 /\
   trace (after (network_connect_wifi (Some ssid) (Some password)) (after network_init w))
     = trace w ++ [WifiConnect ssid; Sleep 2000]) /\
  result network_disconnect_wifi w = ARUNIKA_OK /\
  result network_is_connected (after network_disconnect_wifi w) = false /\
  (result network_is_connected w = false -> after network_disconnect_wifi w = w).
Proof.
  destruct_world w. unfold result, after.
  destruct ni, wc; repeat split; try (intros [u |]); try reflexivity;
    cbn in *; rewrite <- ?app_assoc; solve [congruence | reflexivity].
Qed.

Lemma wifi_life_witness :
  network_connect_wifi (Some "YourWiFiNetwork"%string) (Some "YourWiFiPassword"%string)
    power_on
    = (ARUNIKA_ERROR_INVALID_PARAM, power_on).
Proof.
  destruct (wifi_life power_on "YourWiFiNetwork" "YourWiFiPassword") as (H & _).
  apply H. reflexivity.
Defined.

(** ** The configuration store, continued (config.c) *)

(** X9.  [config_load] and [config_save] refuse a null pointer with
    [ARUNIKA_ERROR_INVALID_PARAM] and change nothing.  A load returns the
    stored configuration and leaves the store and everything else untouched;
    of two saves the later one wins; and saving what was just loaded changes
    nothing. *)
Theorem config_store_behaviour (c1 c2 out : device_config_t) (w : world) :
  config_load None w = ((ARUNIKA_ERROR_INVALID_PARAM, None), w) /\
  config_save None w = (ARUNIKA_ERROR_INVALID_PARAM, w) /\
  config_load (Some out) w = ((ARUNIKA_OK, Some (default_config (globals w))), w) /\
  result (config_load (Some out))
    (after (config_save (Some c2)) (after (config_save (Some c1)) w))
    = (ARUNIKA_OK, Some c2) /\
  after (config_save (Some c2)) (after (config_save (Some c1)) w)
    = after (config_save (Some c2)) w /\
  after (config_save (Some (default_config (globals w)))) w = w.
Proof. destruct_world w. repeat split. Qed.

(** ** Error names (utils.c) *)

(** X10.  [arunika_error_string] gives "Unknown error" exactly for the values
    outside [ARUNIKA_ERROR_INVALID_PARAM .. ARUNIKA_OK] (-8 .. 0), and gives
    different names to different codes inside that range. *)
Theorem error_strings_tell_codes_apart (e1 e2 : Z) :
  (arunika_error_string e1 = "Unknown error"%string <-> e1 < -8 \/ 0 < e1) /\
  (-8 <= e1 <= 0 -> -8 <= e2 <= 0 ->
   arunika_error_string e1 = arunika_error_string e2 -> e1 = e2).
Proof.
  assert (Hcases : forall e, -8 <= e <= 0 ->
            e = 0 \/ e = -1 \/ e = -2 \/ e = -3 \/ e = -4 \/ e = -5 \/ e = -6 \/
            e = -7 \/ e = -8) by (intros; lia).
  split; [split |].
  - intros H. destruct (Z_lt_dec e1 (-8)) as [| Hge]; [now left |].
    destruct (Z_lt_dec 0 e1) as [| Hle]; [now right |].
    exfalso.
    destruct (Hcases e1 ltac:(lia)) as [-> | [-> | [-> | [-> | [-> | [-> | [-> | [-> | ->]]]]]]]];
      discriminate H.
  - intros Hout. unfold arunika_error_string.
    repeat match goal with
           | |- context [?a =? ?b] => destruct (Z.eqb_spec a b) as [E | _];
                                      [unfold ARUNIKA_OK, ARUNIKA_ERROR_INIT,
                                         ARUNIKA_ERROR_CONFIG, ARUNIKA_ERROR_NETWORK,
                                         ARUNIKA_ERROR_AUDIO, ARUNIKA_ERROR_WEBSOCKET,
                                         ARUNIKA_ERROR_MEMORY, ARUNIKA_ERROR_TIMEOUT,
                                         ARUNIKA_ERROR_INVALID_PARAM in E; lia |]
           end.
    reflexivity.
  - intros H1 H2 H.
    destruct (Hcases e1 H1) as [-> | [-> | [-> | [-> | [-> | [-> | [-> | [-> | ->]]]]]]]];
      destruct (Hcases e2 H2) as [-> | [-> | [-> | [-> | [-> | [-> | [-> | [-> | ->]]]]]]]];
      try reflexivity; discriminate H.
Qed.

Lemma error_strings_tell_codes_apart_witness :
  arunika_error_string 1 = "Unknown error"%string.
Proof.
  destruct (error_strings_tell_codes_apart 1 1) as [[_ H] _].
  apply H. right. lia.
Defined.

(** ** Executions, continued (device.c, main.c) *)

Lemma run_app (device_config : device_config_t) (first second : list event) (w : world) :
  run device_config (first ++ second) w
    = run device_config second (run device_config first w).
Proof.
  revert w. induction first as [| e first IH]; intros w; [reflexivity |].
  cbn [app run]. apply IH.
Qed.

(** What one event adds to the trace and does to the state and the channel. *)
Lemma step_summary (device_config : device_config_t) (e : event) (w : world) :
  (exists d,
     trace (after (step device_config e) w) = trace w ++ d /\
     Forall controller_action d) /\
  (settled (current_state (globals w)) ->
   settled (current_state (globals (after (step device_config e) w)))) /\
  (websocket_connected (globals w) = true ->
   websocket_connected (globals (after (step device_config e) w)) = true).
Proof.
  assert (Hidle : forall from,
            controller_action (StateTransition from DEVICE_STATE_IDLE))
    by (intros from; left; reflexivity).
  destruct e as [| | message |].
  - (* device_init *)
    split; [| split].
    + exists [StateTransition (current_state (globals w)) DEVICE_STATE_IDLE].
      split; [reflexivity |]. apply Forall_singleton, Hidle.
    + intros _. right; left. reflexivity.
    + intros H. exact H.
  - (* device_handle_button_press *)
    destruct_world w. unfold settled.
    assert (Hnone : exists d : list action, t = t ++ d /\ Forall controller_action d)
      by (exists []; split; [now rewrite app_nil_r | constructor]).
    destruct st; try (split; [exact Hnone | split; intros H; exact H]).
    + (* Recording *)
      destruct rec;
        (split; [| split; [intros _; cbn; tauto | intros H; exact H]]); cbn.
      * exists [CaptureStop;
                StateTransition DEVICE_STATE_RECORDING DEVICE_STATE_PROCESSING].
        split; [now rewrite <- app_assoc |].
        apply Forall_cons; split; [exact I |].
        apply Forall_singleton. cbn. tauto.
      * exists [StateTransition DEVICE_STATE_RECORDING DEVICE_STATE_PROCESSING].
        split; [reflexivity |]. apply Forall_singleton. cbn. tauto.
    + (* Idle *)
      destruct ai; [| split; [exact Hnone | split; intros H; exact H]].
      split; [| split; [intros _; cbn; tauto | intros H; exact H]].
      exists [CaptureStart; StateTransition DEVICE_STATE_IDLE DEVICE_STATE_RECORDING].
      split; [cbn; now rewrite <- app_assoc |].
      apply Forall_cons; split; [exact I |].
      apply Forall_singleton. cbn. tauto.
  - (* device_process_incoming_message *)
    unfold after, step, device_process_incoming_message, bind.
    destruct (strstr message "ai_response") as [suffix |].
    + split; [| split].
      * exists [StateTransition (current_state (globals w)) DEVICE_STATE_PLAYING;
                Sleep 2000;
                StateTransition DEVICE_STATE_PLAYING DEVICE_STATE_IDLE].
        split; [cbn; rewrite <- !app_assoc; reflexivity |].
        apply Forall_cons; split; [cbn; tauto |].
        apply Forall_cons; split; [exact I |].
        apply Forall_singleton, Hidle.
      * intros _. right; left. reflexivity.
      * intros H. exact H.
    + destruct_world w. split; [| split]; try (intros H; exact H).
      exists []. split; [cbn; now rewrite app_nil_r | constructor].
  - (* one pass of the loop *)
    cbn [step].
    destruct (main_loop_body_effect device_config w) as (Hst & _ & _ & Hws & _ & Ht).
    split; [| split].
    + exists (connect_actions device_config w
              ++ (if sends_chunk w
                  then [SendAudioChunk (sequence (globals w)) ARUNIKA_OK] else [])
              ++ [Sleep 10]).
      split; [exact Ht |].
      apply Forall_app. split.
      * unfold connect_actions. destruct (websocket_connected (globals w));
          [constructor |].
        apply Forall_cons; split; [exact I |]. apply Forall_singleton. exact I.
      * apply Forall_app. split; [| apply Forall_singleton; exact I].
        destruct (sends_chunk w); [apply Forall_singleton; reflexivity | constructor].
    + now rewrite Hst.
    + intros _. exact Hws.
Qed.

(** X11.  What an execution from reset consists of: sleeps, capture starts
    and stops, channel connections, state transitions to Idle, Recording,
    Processing or Playing, and audio chunks that the transport accepts.  So
    [main] never hands a chunk to a channel that is down (a pass connects
    before it sends), no state transition enters Connecting, Connected or
    Error, the speaker is never given a buffer and no ping is ever sent. *)
Theorem executions_take_controller_actions (device_config : device_config_t)
    (events : list event) :
  Forall controller_action (trace (run device_config events power_on)).
Proof.
  enough (H : forall w, Forall controller_action (trace w) ->
                        Forall controller_action (trace (run device_config events w)))
    by (apply H; constructor).
  induction events as [| e events IH]; intros w Hw; [exact Hw |].
  cbn [run]. apply IH.
  destruct (step_summary device_config e w) as ((d & -> & Hd) & _).
  apply Forall_app. now split.
Qed.

(** X12.  Whenever an entry point has returned, the device state is Init,
    Idle, Recording or Processing: Playing is only held inside the message
    handler, and Connecting, Connected and Error are never taken. *)
Theorem executions_rest_in_four_states (device_config : device_config_t)
    (events : list event) :
  settled (current_state (globals (run device_config events power_on))).
Proof.
  enough (H : forall w, settled (current_state (globals w)) ->
                        settled (current_state (globals (run device_config events w))))
    by (apply H; left; reflexivity).
  induction events as [| e events IH]; intros w Hw; [exact Hw |].
  cbn [run]. apply IH. now apply step_summary.
Qed.

(** X13.  A button press in any state other than Idle and Recording is
    ignored: [device_handle_button_press] returns [ARUNIKA_OK] and nothing
    changes. *)
Theorem button_press_ignored_elsewhere (w : world) :
  current_state (globals w) <> DEVICE_STATE_IDLE ->
  current_state (globals w) <> DEVICE_STATE_RECORDING ->
  device_handle_button_press w = (ARUNIKA_OK, w).
Proof.
  destruct_world w. cbn. intros Hidle Hrec.
  destruct st; try reflexivity; congruence.
Qed.

Lemma button_press_ignored_elsewhere_witness :
  device_handle_button_press
    (run initial_default_config [DeviceInit; ButtonPress; ButtonPress] power_on)
    = (ARUNIKA_OK,
       run initial_default_config [DeviceInit; ButtonPress; ButtonPress] power_on).
Proof.
  apply (button_press_ignored_elsewhere
           (run initial_default_config [DeviceInit; ButtonPress; ButtonPress] power_on));
    discriminate.
Defined.

(** X14.  [device_process_incoming_message] changes no variable but the
    device state: it never stops capture.  After an [ai_response] frame
    received while capture is running the device is Idle with capture still
    running, and [audio_read_buffer] still delivers buffers. *)
Theorem incoming_message_leaves_capture_running (message : string) (w : world)
    (buffer : audio_buffer_t) :
  globals (after (device_process_incoming_message message) w)
    = set_current_state
        (current_state (globals (after (device_process_incoming_message message) w)))
        (globals w) /\
  (strstr message "ai_response" <> None ->
   is_recording (globals w) = true ->
   current_state (globals (after (device_process_incoming_message message) w))
     = DEVICE_STATE_IDLE /\
   is_recording (globals (after (device_process_incoming_message message) w)) = true /\
   (result (audio_read_buffer (Some buffer))
      (after (device_process_incoming_message message) w)).1 = ARUNIKA_OK).
Proof.
  unfold result, after, device_process_incoming_message, bind.
  destruct (strstr message "ai_response") as [suffix |]; destruct_world w.
  - split; [reflexivity |]. cbn [globals is_recording]. intros _ ->.
    split; [reflexivity | split; reflexivity].
  - split; [reflexivity |]. intros H. congruence.
Qed.

Lemma incoming_message_leaves_capture_running_witness :
  current_state
    (globals (after (device_process_incoming_message ai_response_frame)
                (run initial_default_config [DeviceInit; ButtonPress] power_on)))
    = DEVICE_STATE_IDLE /\
  is_recording
    (globals (after (device_process_incoming_message ai_response_frame)
                (run initial_default_config [DeviceInit; ButtonPress] power_on)))
    = true.
Proof.
  pose proof (incoming_message_leaves_capture_running ai_response_frame
                (run initial_default_config [DeviceInit; ButtonPress] power_on)
                indeterminate_buffer) as [_ H].
  assert (Hframe : strstr ai_response_frame "ai_response" <> None)
    by (vm_compute; discriminate).
  assert (Hrec : is_recording
                   (globals (run initial_default_config [DeviceInit; ButtonPress] power_on))
                 = true) by reflexivity.
  specialize (H Hframe Hrec). split; apply H.
Defined.

Lemma main_loop_body_clock (device_config : device_config_t) (w : world) :
  monotonic_ms (after (main_loop_body device_config) w)
    = monotonic_ms w + (if websocket_connected (globals w) then 0 else 1000) + 10.
Proof.
  destruct_world w. cbn [globals websocket_connected monotonic_ms].
  destruct ws, (device_state_eqb st DEVICE_STATE_RECORDING) eqn:Hst, rec;
    destruct st; try discriminate Hst;
    cbv [after main_loop_body bind read write ret emit
      websocket_is_connected websocket_receive_message websocket_connect
      device_get_state audio_read_buffer websocket_send_audio_chunk delay_ms];
    cbn -[wrap_int Z.add substring String.append c_str power_get_battery_level];
    match goal with
    | |- context [power_get_battery_level ?W] =>
        destruct (power_get_battery_level_frame W) as (r & level & last & ->)
    end;
    cbn -[wrap_int Z.add substring String.append c_str]; lia.
Qed.

(** X15.  One pass of the loop of [main] leaves the device state and the
    capture flag as they were and makes no state transition (the receive
    routine never delivers a message, so the message handler is never run
    from the loop).  It connects the channel if it was down, which costs
    1000 ms, and leaves it up; it hands the transport exactly one chunk,
    numbered with the counter it then increments, when the state is Recording
    and capture is running, and none otherwise; and it ends with a 10 ms
    sleep.  The URL and the identifier it connects with are the strings read
    through [device_config.server_url] and [device_config.device_id], from
    the memory of the structure. *)
Theorem loop_pass_effect (device_config : device_config_t) (w : world) :
  laid_out device_config = true ->
  current_state (globals (after (main_loop_body device_config) w))
    = current_state (globals w) /\
  is_recording (globals (after (main_loop_body device_config) w))
    = is_recording (globals w) /\
  result websocket_is_connected (after (main_loop_body device_config) w) = true /\
  sequence (globals (after (main_loop_body device_config) w))
    = (if sends_chunk w then wrap_int (sequence (globals w) + 1)
       else sequence (globals w)) /\
  trace (after (main_loop_body device_config) w)
    = trace w
      ++ connect_actions device_config w
      ++ (if sends_chunk w then [SendAudioChunk (sequence (globals w)) ARUNIKA_OK] else [])
      ++ [Sleep 10] /\
  monotonic_ms (after (main_loop_body device_config) w)
    = monotonic_ms w + (if websocket_connected (globals w) then 0 else 1000) + 10.
Proof.
  intros _.
  destruct (main_loop_body_effect device_config w) as (Hst & Hi & _ & Hws & Hsq & Ht).
  repeat split; try assumption. apply main_loop_body_clock.
Qed.

Lemma loop_pass_effect_witness :
  laid_out initial_default_config = true /\
  trace (after (main_loop_body initial_default_config) power_on)
    = [ WebsocketConnect "wss://api.arunika.com" 443 "/ws?device_id=ARUN_DEV_001234";
        Sleep 1000; Sleep 10 ] /\
  monotonic_ms (after (main_loop_body initial_default_config) power_on) = 1010.
Proof.
  split; [reflexivity |].
  destruct (loop_pass_effect initial_default_config power_on eq_refl)
    as (_ & _ & _ & _ & Ht & Hms).
  split; [exact Ht | exact Hms].
Defined.

(** X16.  Nothing in an execution brings the channel down: once a pass of
    the loop has run, [websocket_is_connected] is true for the rest of the
    execution. *)
Theorem channel_stays_up (device_config : device_config_t) (before later : list event) :
  result websocket_is_connected
    (run device_config (before ++ LoopPass :: later) power_on) = true.
Proof.
  rewrite run_app. cbn [run].
  set (w := after (step device_config LoopPass) (run device_config before power_on)).
  assert (Hw : websocket_connected (globals w) = true).
  { subst w. cbn [step].
    now destruct (main_loop_body_effect device_config
                    (run device_config before power_on)) as (_ & _ & _ & H & _). }
  clearbody w. revert w Hw.
  induction later as [| e later IH]; intros w Hw; [exact Hw |].
  cbn [run]. apply IH. now apply step_summary.
Qed.

(** ** The channel path (main.c) *)

(** A read stops at the first NUL it meets, at the latest. *)
Lemma c_str_stops (a b : list ascii) :
  (String.length (c_str (a ++ NUL :: b)) <= length a)%nat.
Proof.
  induction a as [| ch a IH]; [reflexivity |].
  cbn. destruct (Ascii.eqb ch NUL); cbn; lia.
Qed.

(** A read of an array that holds a NUL does not leave the array. *)
Lemma c_str_within (a b : list ascii) :
  NUL ∈ a -> c_str (a ++ b) = c_str a.
Proof.
  induction a as [| ch a IH]; intros Hin; [now apply elem_of_nil in Hin |].
  cbn. destruct (Ascii.eqb ch NUL) eqn:Hch; [reflexivity |].
  f_equal. apply IH. apply elem_of_cons in Hin as [Heq | Hin]; [| exact Hin].
  apply Ascii.eqb_neq in Hch. congruence.
Qed.

Lemma string_length_app (s t : string) :
  String.length (s ++ t) = (String.length s + String.length t)%nat.
Proof. induction s as [| ch s IH]; [reflexivity |]. cbn. now rewrite IH. Qed.

Lemma substring_whole (n : nat) (s : string) :
  (String.length s <= n)%nat -> substring 0 n s = s.
Proof.
  revert n. induction s as [| ch s IH]; intros [| n] H; cbn in *; try reflexivity; [lia |].
  f_equal. apply IH. lia.
Qed.

(** The string read through [config.device_id] ends in [audio_format] at the
    latest: it has at most 32 + 2 + 2 + 1 characters. *)
Lemma device_id_string_length (config : device_config_t) :
  laid_out config = true ->
  (String.length (c_str (from_device_id config)) <= 37)%nat.
Proof.
  unfold laid_out. rewrite !andb_true_iff, !Nat.eqb_eq.
  intros [[[[[[_ _] _] Hid] _] _] Hpad].
  unfold from_device_id, audio_format_bytes, MAX_DEVICE_ID_LENGTH in *.
  set (code := match audio_format config with
               | AUDIO_FORMAT_PCM => _ | AUDIO_FORMAT_MULAW => _ | AUDIO_FORMAT_ALAW => _
               end).
  replace (device_id config ++ uint16_bytes (server_port config) ++ port_padding config
           ++ [code; NUL; NUL; NUL])
    with ((device_id config ++ uint16_bytes (server_port config) ++ port_padding config
           ++ [code]) ++ NUL :: [NUL; NUL])
    by (now rewrite <- !app_assoc).
  etransitivity; [apply c_str_stops |].
  rewrite !length_app. cbn [length uint16_bytes]. lia.
Qed.

(** X17.  The 128-byte [ws_path] of [main] always has room.  What
    [snprintf] reads through [device_config.device_id] is the memory of the
    structure from that member on, up to the first NUL; that is the stored
    identifier when the array holds a NUL, and otherwise runs on into
    [server_port], the padding and [audio_format], where it ends after at
    most 37 characters.  A pass that finds the channel down connects to the
    path ["/ws?device_id="] followed by that whole string, never a cut one. *)
Theorem ws_path_is_never_cut (device_config : device_config_t) (w : world) :
  laid_out device_config = true ->
  websocket_connected (globals w) = false ->
  (String.length ("/ws?device_id=" ++ c_str (from_device_id device_config)) <= 51)%nat /\
  (exists rest,
     trace (after (main_loop_body device_config) w)
       = trace w
         ++ WebsocketConnect (c_str (from_server_url device_config))
              (server_port device_config)
              ("/ws?device_id=" ++ c_str (from_device_id device_config))
            :: rest) /\
  (NUL ∈ device_id device_config ->
   c_str (from_device_id device_config) = c_str (device_id device_config)).
Proof.
  intros Hlaid Hdown.
  assert (Hlen : (String.length ("/ws?device_id=" ++ c_str (from_device_id device_config))
                  <= 51)%nat).
  { rewrite string_length_app. pose proof (device_id_string_length device_config Hlaid).
    cbn [String.length]. lia. }
  split; [exact Hlen |]. split; [| apply c_str_within].
  destruct (main_loop_body_effect device_config w) as (_ & _ & _ & _ & _ & Ht).
  rewrite Ht. unfold connect_actions. rewrite Hdown.
  rewrite substring_whole by lia.
  eexists. cbn [app]. reflexivity.
Qed.

Lemma ws_path_is_never_cut_witness :
  exists rest,
    trace (after (main_loop_body
                    (with_device_id (replicate 32 "A"%char) initial_default_config))
             power_on)
      = WebsocketConnect "wss://api.arunika.com" 443
          ("/ws?device_id=AAAAAAAAAAAAAAAAAAAAAAAAAAAAAAAA"
           ++ String (ascii_of_N 187) (String (ascii_of_N 1) EmptyString))
        :: rest.
Proof.
  destruct (ws_path_is_never_cut
              (with_device_id (replicate 32 "A"%char) initial_default_config) power_on
              eq_refl eq_refl) as (_ & H & _).
  exact H.
Defined.

(** ** Boot, continued (main.c) *)

(** X18.  The part of [main] before the loop cannot fail, from whatever state
    it starts: it enters the loop with a copy of the stored configuration,
    having initialised the audio, network and power subsystems, put the
    device in Idle and connected WiFi, which takes 2000 ms, with the SSID
    read through [device_config.wifi_ssid]: the memory of the structure from
    that member on, up to the first NUL.  So [main] does not return, however
    long it is observed. *)
Theorem boot_reaches_the_loop (w : world) :
  laid_out (default_config (globals w)) = true ->
  main_boot w
    = (Running (default_config (globals w)),
       mk_world
         (set_wifi_connected true
            (set_current_state DEVICE_STATE_IDLE
               (set_power_initialized true
                  (set_network_initialized true
                     (set_audio_initialized true (globals w))))))
         (monotonic_ms w + 2000)
         (trace w
          ++ [ StateTransition (current_state (globals w)) DEVICE_STATE_IDLE;
               WifiConnect (c_str (from_wifi_ssid (default_config (globals w))));
               Sleep 2000 ])) /\
  (forall passes, result (main passes) w = None).
Proof.
  intros _.
  assert (Hboot : main_boot w
    = (Running (default_config (globals w)),
       mk_world
         (set_wifi_connected true
            (set_current_state DEVICE_STATE_IDLE
               (set_power_initialized true
                  (set_network_initialized true
                     (set_audio_initialized true (globals w))))))
         (monotonic_ms w + 2000)
         (trace w
          ++ [ StateTransition (current_state (globals w)) DEVICE_STATE_IDLE;
               WifiConnect (c_str (from_wifi_ssid (default_config (globals w))));
               Sleep 2000 ]))).
  { destruct_world w. cbv [main_boot bind].
    rewrite device_init_effect. cbn -[c_str from_wifi_ssid from_wifi_password].
    rewrite <- !app_assoc. reflexivity. }
  split; [exact Hboot |].
  intros passes. unfold result, main, bind. rewrite Hboot.
  now destruct (main_loop passes _ _).
Qed.

Lemma boot_reaches_the_loop_witness :
  laid_out (default_config (globals power_on)) = true /\
  fst (main_boot power_on) = Running initial_default_config /\
  result (main 3) power_on = None.
Proof.
  split; [reflexivity |].
  destruct (boot_reaches_the_loop power_on eq_refl) as [Hboot Hmain].
  split; [now rewrite Hboot | apply Hmain].
Defined.

(** X19.  The loop of [main] works on the copy of the configuration made at
    boot: a [config_save] changes nothing in what a pass does, before or
    after it. *)
Theorem loop_keeps_boot_configuration (device_config saved : device_config_t)
    (w : world) :
  after (main_loop_body device_config) (after (config_save (Some saved)) w)
    = after (config_save (Some saved)) (after (main_loop_body device_config) w).
Proof.
  destruct_world w.
  destruct ws, (device_state_eqb st DEVICE_STATE_RECORDING) eqn:Hst, rec;
    destruct st; try discriminate Hst;
    cbv [after main_loop_body bind read write ret emit config_save
      websocket_is_connected websocket_receive_message websocket_connect
      device_get_state audio_read_buffer websocket_send_audio_chunk delay_ms];
    cbn -[wrap_int Z.add substring String.append c_str power_get_battery_level];
    rewrite !power_get_battery_level_effect;
    cbn -[wrap_int wrap_u32 wrap_u8 Z.gtb Z.sub Z.add substring String.append c_str];
    destruct pi; cbn -[wrap_int wrap_u32 wrap_u8 Z.gtb Z.sub Z.add substring String.append c_str];
    try reflexivity;
    match goal with
    | |- context [?a >? 10000] => destruct (a >? 10000)
    end;
    cbn -[wrap_int wrap_u32 wrap_u8 Z.gtb Z.sub Z.add substring String.append c_str];
    try reflexivity;
    destruct (bl >? 0); reflexivity.
Qed.

(** ** Capture and playback (audio.c) *)

(** X20.  The life of capture.  Before [audio_init], starting capture fails
    with [ARUNIKA_ERROR_AUDIO] and playing with [ARUNIKA_ERROR_INVALID_PARAM],
    and nothing changes.  [audio_read_buffer] succeeds exactly when capture is
    running and the pointer is not null; it then reports 512 bytes of mu-law
    audio at 8000 Hz and leaves the buffer's data and capacity alone.  After
    [audio_init] a start succeeds and reads succeed until the stop, after
    which they are refused; stopping a capture that is not running changes
    nothing. *)
Theorem capture_life (w : world) (buffer : audio_buffer_t) :
  (audio_initialized (globals w) = false ->
   audio_start_recording w = (ARUNIKA_ERROR_AUDIO, w) /\
   audio_play_buffer (Some buffer) w = (ARUNIKA_ERROR_INVALID_PARAM, w)) /\
  audio_read_buffer None w = ((ARUNIKA_ERROR_INVALID_PARAM, None), w) /\
  audio_read_buffer (Some buffer) w
    = (if is_recording (globals w)
       then (ARUNIKA_OK,
             Some {| data := data buffer; size := 512; capacity := capacity buffer;
                     sample_rate := 8000; format := AUDIO_FORMAT_MULAW |})
       else (ARUNIKA_ERROR_INVALID_PARAM, Some buffer),
       w) /\
  (result audio_start_recording (after audio_init w) = ARUNIKA_OK /\
   (result (audio_read_buffer (Some buffer))
      (after audio_start_recording (after audio_init w))).1 = ARUNIKA_OK /\
   (result (audio_read_buffer (Some buffer))
      (after audio_stop_recording
         (after audio_start_recording (after audio_init w)))).1
     = ARUNIKA_ERROR_INVALID_PARAM) /\
  result audio_stop_recording w = ARUNIKA_OK /\
  is_recording (globals (after audio_stop_recording w)) = false /\
  (is_recording (globals w) = false -> after audio_stop_recording w = w).
Proof.
  destruct_world w. unfold result, after.
  destruct ai, rec; repeat split; try reflexivity; cbn in *; congruence.
Qed.

Lemma capture_life_witness :
  audio_start_recording power_on = (ARUNIKA_ERROR_AUDIO, power_on) /\
  after audio_stop_recording power_on = power_on.
Proof.
  destruct (capture_life power_on indeterminate_buffer) as (H1 & _ & _ & _ & _ & _ & H2).
  split; [apply H1; reflexivity | apply H2; reflexivity].
Defined.
